(** * homebridge-lib: the Eve history engine of [lib/ServiceDelegate.js]

    A shallow embedding of the binary codec helpers, of the [History]
    service delegate (ring buffer, reference time, restart marker, transfer
    of entries) and of its [Contact] and [Motion] subclasses, followed by the
    properties established about them. *)

From Stdlib Require Import ZArith Lia Bool List Ascii String.
From stdpp Require Import base option gmap strings pretty.

Local Open Scope Z_scope.

(** ** JavaScript values *)

(** The numbers this code computes with are integers (Unix seconds, counters,
    characteristic values) or [NaN], which arithmetic on [undefined] or on an
    invalid date produces. *)
Inductive number : Set :=
| Num (z : Z)
| NaN.

Coercion Num : Z >-> number.

Definition number_eqb (a b : number) : bool :=
  match a, b with
  | Num x, Num y => x =? y
  | _, _ => false
  end.

Definition number_sub (a b : number) : number :=
  match a, b with
  | Num x, Num y => Num (x - y)
  | _, _ => NaN
  end.

Infix "-'" := number_sub (at level 50, left associativity).

(** [x - undefined] is [NaN]. *)
Definition sub_maybe (a : number) (b : option number) : number :=
  match b with
  | Some n => a -' n
  | None => NaN
  end.

Inductive value : Type :=
| Undefined
| Null
| VNum (n : number)
| VStr (s : string).

Inductive error : Set :=
| TypeError (message : string).

Inductive completion (A : Type) : Type :=
| Normal (a : A)
| Throw (e : error).

Arguments Normal {A} a.
Arguments Throw {A} e.

(** ** 32-bit integer operators *)

Module Int32.

Definition ToUint32 (n : number) : Z :=
  match n with
  | Num z => z mod 2 ^ 32
  | NaN => 0
  end.

Definition ToInt32 (n : number) : Z :=
  let u := ToUint32 n in
  if u <? 2 ^ 31 then u else u - 2 ^ 32.

(** [a & b] *)
Definition and (a b : number) : Z := Z.land (ToInt32 a) (ToInt32 b).

(** [a | b] *)
Definition or (a b : number) : Z := Z.lor (ToInt32 a) (ToInt32 b).

(** [a << k] *)
Definition shl (a : number) (k : Z) : Z :=
  ToInt32 (Z.shiftl (ToInt32 a) (k mod 32)).

(** [a >>> k] *)
Definition shru (a : number) (k : Z) : Z :=
  Z.shiftr (ToUint32 a) (k mod 32).

End Int32.

(** ** Strings of hexadecimal digits *)

Definition code (c : ascii) : Z := Z.of_N (N_of_ascii c).

Definition chr (z : Z) : ascii := ascii_of_N (Z.to_N z).

Definition between (lo : Z) (c : ascii) (hi : Z) : bool :=
  (lo <=? code c) && (code c <=? hi).

(** The class [[0-9A-F]] with the [i] flag. *)
Definition is_hex (c : ascii) : bool :=
  between 48 c 57 || between 65 c 70 || between 97 c 102.

Definition hex_value (c : ascii) : Z :=
  if between 48 c 57 then code c - 48
  else if between 65 c 70 then code c - 55
  else code c - 87.

Definition hex_digit (d : Z) : ascii :=
  if d <? 10 then chr (48 + d) else chr (87 + d).

Fixpoint string_filter (p : ascii -> bool) (s : string) : string :=
  match s with
  | EmptyString => EmptyString
  | String c s' =>
      if p c then String c (string_filter p s') else string_filter p s'
  end.

(** [Buffer.from(s, 'hex')], as Node.js documents it (from version 8, no
    error is raised): one byte per pair of digits; decoding stops at the
    first pair that is not two hexadecimal digits, and a single trailing
    digit is dropped. *)
Fixpoint bytes_of_hex (s : string) : list Z :=
  match s with
  | String a (String b s') =>
      if is_hex a && is_hex b
      then (16 * hex_value a + hex_value b) :: bytes_of_hex s'
      else []
  | _ => []
  end.

(** [buf.toString('hex')] *)
Fixpoint hex_of_bytes (bs : list Z) : string :=
  match bs with
  | [] => EmptyString
  | b :: bs' =>
      String (hex_digit (b / 16)) (String (hex_digit (b mod 16)) (hex_of_bytes bs'))
  end.

(** ** Base64 *)

Definition b64_char (d : Z) : ascii :=
  if d <? 26 then chr (65 + d)
  else if d <? 52 then chr (71 + d)
  else if d <? 62 then chr (d - 4)
  else if d =? 62 then "+"%char
  else "/"%char.

(** [buf.toString('base64')] *)
Fixpoint base64_of_bytes (bs : list Z) : string :=
  match bs with
  | [] => EmptyString
  | [a] =>
      String (b64_char (a / 4))
        (String (b64_char (a mod 4 * 16)) "==")
  | [a; b] =>
      String (b64_char (a / 4))
        (String (b64_char (a mod 4 * 16 + b / 16))
           (String (b64_char (b mod 16 * 4)) "="))
  | a :: b :: c :: bs' =>
      String (b64_char (a / 4))
        (String (b64_char (a mod 4 * 16 + b / 16))
           (String (b64_char (b mod 16 * 4 + c / 64))
              (String (b64_char (c mod 64)) (base64_of_bytes bs'))))
  end.

(** The value of a character of the base64 alphabet (the URL-safe variants
    of 62 and 63 included), if it is one. *)
Definition b64_value (c : ascii) : option Z :=
  if between 65 c 90 then Some (code c - 65)
  else if between 97 c 122 then Some (code c - 71)
  else if between 48 c 57 then Some (code c + 4)
  else if (code c =? 43) || (code c =? 45) then Some 62
  else if (code c =? 47) || (code c =? 95) then Some 63
  else None.

(** The sextets of a base64 text: characters outside the alphabet are
    skipped and the text ends at the first [=]. *)
Fixpoint sextets (s : string) : list Z :=
  match s with
  | EmptyString => []
  | String c s' =>
      if code c =? 61 then []
      else match b64_value c with
           | Some d => d :: sextets s'
           | None => sextets s'
           end
  end.

Fixpoint bytes_of_sextets (ds : list Z) : list Z :=
  match ds with
  | a :: b :: c :: d :: ds' =>
      (a * 4 + b / 16) :: (b mod 16 * 16 + c / 4) :: (c mod 4 * 64 + d)
        :: bytes_of_sextets ds'
  | [a; b; c] => [a * 4 + b / 16; b mod 16 * 16 + c / 4]
  | [a; b] => [a * 4 + b / 16]
  | _ => []
  end.

(** [Buffer.from(s, 'base64')] *)
Definition bytes_of_base64 (s : string) : list Z :=
  bytes_of_sextets (sextets s).

(** ** The codec helpers of the source *)

(** [moment('2001-01-01T00:00:00Z').unix()] *)
Definition epoch : Z := 978307200.

Definition hexToBase64_string (s : string) : string :=
  base64_of_bytes (bytes_of_hex (string_filter is_hex s)).

Definition hexToBase64 (v : value) : completion string :=
  match v with
  | VStr s => Normal (hexToBase64_string s)
  | _ => Throw (TypeError "value: not a string")
  end.

Definition base64ToHex_string (s : string) : string :=
  hex_of_bytes (bytes_of_base64 s).

Definition base64ToHex (v : value) : completion string :=
  match v with
  | VStr s => Normal (base64ToHex_string s)
  | _ => Throw (TypeError "value: not a string")
  end.

Definition swap16 (v : number) : Z :=
  Int32.or (Int32.shl (Int32.and v 0xFF) 8) (Int32.and (Int32.shru v 8) 0xFF).

Definition swap32 (v : number) : Z :=
  Int32.or
    (Int32.or
       (Int32.or (Int32.shl (Int32.and v 0xFF) 24)
                 (Int32.shl (Int32.and v 0xFF00) 8))
       (Int32.and (Int32.shru v 8) 0xFF00))
    (Int32.and (Int32.shru v 24) 0xFF).

(** [Number(u).toString(16)] for [0 <= u < 16 ^ fuel]. *)
Fixpoint hex_of_nat_digits (fuel : nat) (u : Z) (acc : string) : string :=
  match fuel with
  | O => acc
  | S fuel' =>
      let acc' := String (hex_digit (u mod 16)) acc in
      if u / 16 =? 0 then acc' else hex_of_nat_digits fuel' (u / 16) acc'
  end.

Definition toString16 (u : Z) : string := hex_of_nat_digits 8 u EmptyString.

Fixpoint string_drop (n : nat) (s : string) : string :=
  match n, s with
  | O, _ => s
  | S n', String _ s' => string_drop n' s'
  | S _, EmptyString => EmptyString
  end.

(** [s.slice(-n)] for [n > 0]: the last [n] characters. *)
Definition slice_last (n : nat) (s : string) : string :=
  string_drop (String.length s - n) s.

(** [numToHex (value, length)]; a missing [length] is [0]. *)
Definition numToHex (v : number) (length : nat) : string :=
  let s := toString16 (Int32.ToUint32 v) in
  let s := if Nat.even (String.length s) then s else String "0" s in
  match length with
  | O => s
  | _ => slice_last length ("0000000000000" +:+ s)
  end.

(** [parseInt (s, 16)] on a string that starts with neither white space, a
    sign nor a [0x] prefix, as the strings of [base64ToHex] do: the value of
    the longest prefix of hexadecimal digits, [NaN] when it is empty. *)
Fixpoint parse_hex_digits (s : string) (acc : Z) : Z :=
  match s with
  | String c s' => if is_hex c then parse_hex_digits s' (16 * acc + hex_value c) else acc
  | EmptyString => acc
  end.

Definition parseInt16 (s : string) : number :=
  match s with
  | String c _ => if is_hex c then Num (parse_hex_digits s 0) else NaN
  | EmptyString => NaN
  end.

(** [s.substring(i, j)] for [0 <= i <= j]. *)
Definition substring_from_to (i j : nat) (s : string) : string :=
  String.substring i (j - i) s.

(** The entry a history request asks for, [hex] being the request in
    hexadecimal: [swap32 (parseInt (hex.substring (4, 12), 16))]. *)
Definition requested_entry (hex : string) : Z :=
  swap32 (parseInt16 (substring_from_to 4 12 hex)).

(** ** [uuid] of [lib/MyHomeKitTypes.js] *)

(** The text of a value in a template literal. *)
Definition String_of (v : value) : string :=
  match v with
  | Undefined => "undefined"
  | Null => "null"
  | VNum (Num z) => pretty z
  | VNum NaN => "NaN"
  | VStr s => s
  end.

Definition uuid (id : value) : completion string :=
  match id with
  | VStr s =>
      if negb (String.length s =? 3)%nat
      then Throw (TypeError (s +:+ ": illegal id"))
      else Normal ("00000" +:+ s +:+ "-0000-1000-8000-656261617577")
  | _ => Throw (TypeError (String_of id +:+ ": illegal id"))
  end.

(** ** The moment library, as far as the delegates use it

    A moment object only ever enters arithmetic here, so it is represented by
    the number it converts to: its time in milliseconds, [NaN] for an invalid
    moment. *)
Module moment.

(** [moment().unix()]: the Unix time, in seconds, of the clock. *)
Definition now_unix (clock : Z) : number := Num clock.

(** [moment.unix(t)]: the moment of the Unix time [t], built from
    [t * 1000]; without an argument that is [undefined * 1000]. *)
Definition unix (t : option number) : number :=
  match t with
  | Some (Num z) => Num (z * 1000)
  | _ => NaN
  end.

End moment.

(** ** The [History] service delegate *)

Record entry (P : Type) : Type := Entry { time : number; fields : P }.

Arguments Entry {P} time fields.
Arguments time {P} e.
Arguments fields {P} e.

(** What a cell of [_history] holds: the string ['noValue'] of the
    constructor, a reference-time marker [{time, setRefTime: 1}], or a copy
    of the delegate's entry. *)
Inductive slot (P : Type) : Type :=
| NoValue
| RefTimeMarker (t : number)
| Stored (e : entry P).

Arguments NoValue {P}.
Arguments RefTimeMarker {P} t.
Arguments Stored {P} e.

(** [s.setRefTime === 1] *)
Definition setRefTime {P} (s : slot P) : bool :=
  match s with
  | RefTimeMarker _ => true
  | _ => false
  end.

(** [s.time], [undefined] on the string. *)
Definition slot_time {P} (s : slot P) : option number :=
  match s with
  | NoValue => None
  | RefTimeMarker t => Some t
  | Stored e => Some (time e)
  end.

(** The fields of the entry below the cell, if it holds one. *)
Definition slot_fields {P} (s : slot P) : option P :=
  match s with
  | Stored e => Some (fields e)
  | _ => None
  end.

(** [t - refTime - epoch] for the [time] property [t] of a cell. *)
Definition relative_time (t : option number) (refTime : number) : number :=
  match t with
  | Some n => n -' refTime -' epoch
  | None => NaN
  end.

(** What the subclasses of [History] supply: the fields of their entries,
    [_fingerPrint] and [_entryStream], the latter reading [_currentEntry]
    and [_refTime] of the delegate. *)
Class Sensor (P : Type) : Type := {
  _fingerPrint : string;
  _entryStream : Z -> number -> slot P -> string
}.

Definition _memorySize : Z := 4032.

Record History (P : Type) : Type := mkHistory {
  _firstEntry : Z;
  _lastEntry : Z;
  _history : gmap Z (slot P);
  _usedMemory : Z;
  _currentEntry : Z;
  _transfer : bool;
  _setTime : bool;
  _restarted : bool;
  _refTime : number;
  _initialTime : option number;
  _entry : entry P;
  (** [this.loading], which [_addEntry] tests; nothing assigns it *)
  loading : bool;
  (** [this._loading], which [_load] sets and [_save] tests *)
  _loading : bool;
  (** [values.historyStatus], once [_addEntry] has assigned it *)
  historyStatus : option string;
  (** the [now] of each pending [setTimeout] retry of [_addEntry] *)
  timers : list number
}.

Arguments mkHistory {P}.
Arguments _firstEntry {P} h.
Arguments _lastEntry {P} h.
Arguments _history {P} h.
Arguments _usedMemory {P} h.
Arguments _currentEntry {P} h.
Arguments _transfer {P} h.
Arguments _setTime {P} h.
Arguments _restarted {P} h.
Arguments _refTime {P} h.
Arguments _initialTime {P} h.
Arguments _entry {P} h.
Arguments loading {P} h.
Arguments _loading {P} h.
Arguments historyStatus {P} h.
Arguments timers {P} h.

(** What [_save] writes and [_load] reads back. *)
Record snapshot (P : Type) : Type := mkSnapshot {
  firstEntry : Z;
  lastEntry : Z;
  usedMemory : Z;
  refTime : number;
  initialTime : option number;
  history : gmap Z (slot P)
}.

Arguments mkSnapshot {P}.
Arguments firstEntry {P} s.
Arguments lastEntry {P} s.
Arguments usedMemory {P} s.
Arguments refTime {P} s.
Arguments initialTime {P} s.
Arguments history {P} s.

Section HistoryDelegate.

Context {P : Type} `{Sensor P}.

(** The constructor, up to and including its call of [_load], for a
    subclass whose constructor then assigns [entry0] to [_entry]. *)
Definition new_History (entry0 : entry P) : History P :=
  {| _firstEntry := 0;
     _lastEntry := 0;
     _history := {[ 0 := NoValue ]};
     _usedMemory := 0;
     _currentEntry := 1;
     _transfer := false;
     _setTime := true;
     _restarted := true;
     _refTime := 0;
     _initialTime := None;
     _entry := entry0;
     loading := false;
     _loading := true;
     historyStatus := None;
     timers := [] |}.

(** The text [_addEntry] formats for the history status. *)
Definition status_text (t refT : number) (used first : Z) : string :=
  let usedMemeoryOffset := if used <? _memorySize then 1 else 0 in
  let firstEntryOffset := if used <? _memorySize then 0 else 1 in
  numToHex (swap32 (t -' refT -' epoch)) 8
    +:+ "00000000"
    +:+ numToHex (swap32 refT) 8
    +:+ _fingerPrint
    +:+ numToHex (swap16 (used + usedMemeoryOffset)) 4
    +:+ numToHex (swap16 _memorySize) 4
    +:+ numToHex (swap32 (first + firstEntryOffset)) 8
    +:+ "000000000101".

Definition _addEntry (h : History P) (now : number) : History P :=
  if loading h then
    mkHistory (_firstEntry h) (_lastEntry h) (_history h) (_usedMemory h)
      (_currentEntry h) (_transfer h) (_setTime h) (_restarted h)
      (_refTime h) (_initialTime h) (_entry h) (loading h) (_loading h)
      (historyStatus h) (timers h ++ [now])
  else
    let e := Entry now (fields (_entry h)) in
    let '(used, first, last, hist, restarted) :=
      if _usedMemory h <? _memorySize then
        (_usedMemory h + 1, 0, _usedMemory h + 1, _history h, _restarted h)
      else
        let first := _firstEntry h + 1 in
        let last := first + _usedMemory h in
        if _restarted h then
          (_usedMemory h, first + 1, first + 1 + _usedMemory h,
           <[ Z.rem last _memorySize := RefTimeMarker now ]> (_history h),
           false)
        else (_usedMemory h, first, last, _history h, _restarted h) in
    let '(refT, initT, hist, last, used) :=
      if number_eqb (_refTime h) 0 then
        (now -' epoch, Some now, <[ last := RefTimeMarker now ]> hist,
         last + 1, used + 1)
      else (_refTime h, _initialTime h, hist, last, used) in
    let hist := <[ Z.rem last _memorySize := Stored e ]> hist in
    let value := status_text now refT used first in
    mkHistory first last hist used
      (_currentEntry h) (_transfer h) (_setTime h) restarted
      refT initT e (loading h) (_loading h)
      (Some (hexToBase64_string value)) (timers h).

(** [_heartbeat (beat)] at clock time [clock]; the [_save] it also
    triggers once a day leaves the delegate as it is. *)
Definition _heartbeat (h : History P) (clock beat : Z) : History P :=
  if Z.rem beat 600 =? 5 then _addEntry h (moment.now_unix clock) else h.

Definition _onSetHistoryRequest (h : History P) (v : value)
  : completion (History P) :=
  match base64ToHex v with
  | Throw e => Throw e
  | Normal hex =>
      let entry := requested_entry hex in
      let current := if negb (entry =? 0) then entry else 1 in
      Normal
        (mkHistory (_firstEntry h) (_lastEntry h) (_history h)
           (_usedMemory h) current true (_setTime h) (_restarted h)
           (_refTime h) (_initialTime h) (_entry h) (loading h)
           (_loading h) (historyStatus h) (timers h))
  end.

(** The record that tells the reader the reference time. *)
Definition refTime_record (current : Z) (refT : number) : string :=
  " 15" +:+ numToHex (swap32 current) 8 +:+ " 0100 0000 81"
    +:+ numToHex (swap32 refT) 8 +:+ "0000 0000 00 0000".

Definition with_transfer (h : History P) (current : Z) (transfer setT : bool)
  : History P :=
  mkHistory (_firstEntry h) (_lastEntry h) (_history h) (_usedMemory h)
    current transfer setT (_restarted h) (_refTime h) (_initialTime h)
    (_entry h) (loading h) (_loading h) (historyStatus h) (timers h).

(** The [for] loop of [_onGetEntries] with [n] rounds left, and the
    callback after it.  Reading a property of a cell that was never
    written throws. *)
Fixpoint entries_loop (n : nat) (h : History P) (dataStream : string)
  : History P * completion string :=
  match n with
  | O => (h, Normal (hexToBase64_string dataStream))
  | S n' =>
      let address := Z.rem (_currentEntry h) _memorySize in
      match _history h !! address with
      | None =>
          (h, Throw (TypeError "Cannot read property 'setRefTime' of undefined"))
      | Some cell =>
          let resync :=
            setRefTime cell || _setTime h
              || (_currentEntry h =? _firstEntry h + 1) in
          let dataStream :=
            if resync
            then dataStream +:+ refTime_record (_currentEntry h) (_refTime h)
            else dataStream +:+ _entryStream (_currentEntry h) (_refTime h) cell in
          let h :=
            with_transfer h (_currentEntry h + 1) (_transfer h)
              (if resync then false else _setTime h) in
          if _currentEntry h >? _lastEntry h
          then (h, Normal (hexToBase64_string dataStream))
          else entries_loop n' h dataStream
      end
  end.

(** [_onGetEntries (callback)]: the delegate afterwards and what the
    callback receives. *)
Definition _onGetEntries (h : History P) : History P * completion string :=
  if (_currentEntry h >? _lastEntry h) || negb (_transfer h) then
    (with_transfer h (_currentEntry h) false (_setTime h),
     Normal (hexToBase64_string "00"))
  else entries_loop 11 h "".

(** [_save]: the data it serialises. *)
Definition _save (h : History P) : snapshot P :=
  mkSnapshot (_firstEntry h) (_lastEntry h) (_usedMemory h) (_refTime h)
    (_initialTime h) (_history h).

(** The callback of the [readFile] that [_load] starts: [None] when the
    file cannot be read or parsed. *)
Definition _load_callback (h : History P) (file : option (snapshot P))
  : History P :=
  match file with
  | None =>
      mkHistory (_firstEntry h) (_lastEntry h) (_history h) (_usedMemory h)
        (_currentEntry h) (_transfer h) (_setTime h) (_restarted h)
        (_refTime h) (_initialTime h) (_entry h) (loading h) false
        (historyStatus h) (timers h)
  | Some f =>
      mkHistory (firstEntry f) (lastEntry f) (history f) (usedMemory f)
        (_currentEntry h) (_transfer h) (_setTime h) (_restarted h)
        (refTime f) (initialTime f) (_entry h) (loading h) false
        (historyStatus h) (timers h)
  end.

(** A pending [setTimeout] retry fires. *)
Definition fire_timer (h : History P) : History P :=
  match timers h with
  | [] => h
  | now :: rest =>
      _addEntry
        (mkHistory (_firstEntry h) (_lastEntry h) (_history h)
           (_usedMemory h) (_currentEntry h) (_transfer h) (_setTime h)
           (_restarted h) (_refTime h) (_initialTime h) (_entry h)
           (loading h) (_loading h) (historyStatus h) rest)
        now
  end.

(** A subclass assigns the fields of [_entry]. *)
Definition with_fields (h : History P) (f : P) : History P :=
  mkHistory (_firstEntry h) (_lastEntry h) (_history h) (_usedMemory h)
    (_currentEntry h) (_transfer h) (_setTime h) (_restarted h)
    (_refTime h) (_initialTime h) (Entry (time (_entry h)) f)
    (loading h) (_loading h) (historyStatus h) (timers h).

(** The delegate after the calls [_addEntry (now)] for the [now] of a
    list, in order. *)
Definition addEntries (h : History P) (nows : list number) : History P :=
  fold_left _addEntry nows h.

(** The delegates such a run of calls goes through, one after each call. *)
Fixpoint states_after (h : History P) (nows : list number)
  : list (History P) :=
  match nows with
  | [] => []
  | now :: rest =>
      let h' := _addEntry h now in h' :: states_after h' rest
  end.


(** What an append keeps once the reference time is set. *)
Definition anchored (h : History P) : Prop :=
  loading h = false /\ number_eqb (_refTime h) 0 = false /\
  _usedMemory h <= _memorySize.

(** The store while it fills, [n] cells after the constructor's. *)
Definition filling (cells : gmap Z (slot P)) (n : Z) (t1 : number)
    (e : entry P) : History P :=
  mkHistory 0 n cells n 1 false true true (t1 -' epoch) (Some t1) e false
    true (Some (hexToBase64_string (status_text (time e) (t1 -' epoch) n 0)))
    [].

(** The store after three appends to the empty store. *)
Definition three_entries (f1 f2 f3 : P) (t1 t2 t3 : number) : History P :=
  filling
    (<[ 4 := Stored (Entry t3 f3) ]>
       (<[ 3 := Stored (Entry t2 f2) ]>
          (<[ 2 := Stored (Entry t1 f1) ]>
             (<[ 1 := RefTimeMarker t1 ]> {[ 0 := NoValue ]}))))
    4 t1 (Entry t3 f3).

(** [k] reads of the history entries in a row: the delegate afterwards
    and what the callbacks received, first read first. *)
Fixpoint reads (k : nat) (h : History P)
  : History P * list (completion string) :=
  match k with
  | O => (h, [])
  | S k' =>
      let '(h', r) := _onGetEntries h in
      let '(h'', rs) := reads k' h' in
      (h'', r :: rs)
  end.

(** Counters that are not negative, and no cell at a negative index. *)
Definition natural (h : History P) : Prop :=
  0 <= _firstEntry h /\ 0 <= _usedMemory h /\ 0 <= _lastEntry h /\
  forall k, k < 0 -> _history h !! k = None.

(** The store of a delegate whose reference time is set: the counters
    agree, and the cells in use are those from 0 to [_lastEntry], below
    [_memorySize]. *)
Definition compact (h : History P) : Prop :=
  loading h = false /\ number_eqb (_refTime h) 0 = false /\
  0 <= _firstEntry h /\ 1 <= _usedMemory h <= _memorySize /\
  _lastEntry h = _firstEntry h + _usedMemory h /\
  (_usedMemory h < _memorySize -> _firstEntry h = 0) /\
  forall k, is_Some (_history h !! k) <->
            0 <= k <= _lastEntry h /\ k < _memorySize.

End HistoryDelegate.

(** ** The [Contact] and [Motion] subclasses *)

(** [numToHex (entry.status, 2)], [entry.status] being [undefined] on a
    cell that holds no entry. *)
Definition status_hex (status : option Z) : string :=
  match status with
  | Some z => numToHex z 2
  | None => numToHex NaN 2
  end.

Module Contact.

#[export] Instance sensor : Sensor Z := {|
  _fingerPrint := "01 0601";
  _entryStream current refT cell :=
    " 0b " +:+ numToHex (swap32 current) 8
      +:+ numToHex (swap32 (relative_time (slot_time cell) refT)) 8
      +:+ "01" +:+ status_hex (slot_fields cell)
|}.

(** The delegate with the values of the three characteristic delegates
    its constructor is given. *)
Record t : Type := mk {
  delegate : History Z;
  contact : Z;
  timesOpened : Z;
  lastActivation : number
}.

Definition new (contact timesOpened : Z) (lastActivation : number) : t :=
  mk (new_History (Entry 0 contact)) contact timesOpened lastActivation.

(** The [didSet] handler of the contact delegate. *)
Definition onContactDidSet (c : t) (value : Z) : t :=
  let now := moment.unix None in
  mk (_addEntry (with_fields (delegate c) value) now)
     value
     (timesOpened c + value)
     (sub_maybe now (_initialTime (delegate c))).

(** The [didSet] handler of the reset-total delegate. *)
Definition onResetTotalDidSet (c : t) : t :=
  mk (delegate c) (contact c) 0 (lastActivation c).

End Contact.

Module Motion.

#[export] Instance sensor : Sensor Z := {|
  _fingerPrint := "02 1301 1c01";
  _entryStream current refT cell :=
    " 0b " +:+ numToHex (swap32 current) 8
      +:+ numToHex (swap32 (relative_time (slot_time cell) refT)) 8
      +:+ "02" +:+ status_hex (slot_fields cell)
|}.

End Motion.

(** ** Example delegates *)

Module Examples.

Import Contact.

(** The delegate of a contact sensor with no persisted history, once the
    callback of [readFile] has reported that. *)
Definition empty : History Z := _load_callback (new_History (Entry 0 0)) None.

(** A request for entry [0], as the Eve app writes it: the bytes
    [01 14 00 00 00 00 00 00]. *)
Definition request_from_oldest : string := "ARQAAAAAAAA=".

(** The times of [n] heartbeat entries, ten minutes apart. *)
Definition every_ten_minutes (n : nat) : list number :=
  map (fun i => Num (1600000000 + 600 * Z.of_nat i)) (seq 0 n).

(** The store once 4032 appends have wrapped it: the restart marker is
    in and [_firstEntry] is [2]. *)
Definition wrapped : History Z :=
  addEntries (new_History (Entry 0 0)) (every_ten_minutes 4032).

(** The store one append short of wrapping: full, and not yet marked
    since the restart. *)
Definition full : History Z :=
  addEntries (new_History (Entry 0 0)) (every_ten_minutes 4031).

(** As many appends at the device epoch as it takes to go past the
    capacity. *)
Definition at_epoch : list number := repeat (Num epoch) 2017.

(** A door opened, closed and opened again, ten minutes apart. *)
Definition three_events : History Z :=
  let h1 := _addEntry (with_fields (new_History (Entry 0 0)) 1) 1600000000 in
  let h2 := _addEntry (with_fields h1 0) 1600000600 in
  _addEntry (with_fields h2 1) 1600001200.

(** The three events once the Eve app has asked for the entries from the
    oldest one on. *)
Definition requested : History Z := with_transfer three_events 1 true true.

(** The same three events with the clock at the device epoch for the
    first of them. *)
Definition three_events_at_epoch : History Z :=
  let h1 := _addEntry (with_fields (new_History (Entry 0 0)) 1) epoch in
  let h2 := _addEntry (with_fields h1 0) (epoch + 600) in
  _addEntry (with_fields h2 1) (epoch + 1200).

(** A contact sensor whose history holds one entry, opened ten minutes
    later. *)
Definition closed_door : Contact.t :=
  Contact.mk (_addEntry empty 1600000000) 0 0 0.

End Examples.

(** ** Auxiliary definitions of the proofs *)

(** The bit of [v] that bit [n] of [swap32 v] is, the result being sign
    extended from bit 31. *)
Definition swap32_source (n : Z) : Z :=
  if n <? 8 then n + 24
  else if n <? 16 then n + 8
  else if n <? 24 then n - 8
  else if n <? 32 then n - 24
  else 7.

Fixpoint all_hex (s : string) : bool :=
  match s with
  | EmptyString => true
  | String c s' => is_hex c && all_hex s'
  end.

(** The class [[0-9a-f]], the digits [toString('hex')] and [toString(16)]
    write. *)
Definition is_lower_hex (c : ascii) : bool :=
  between 48 c 57 || between 97 c 102.

Fixpoint all_lower_hex (s : string) : bool :=
  match s with
  | EmptyString => true
  | String c s' => is_lower_hex c && all_lower_hex s'
  end.

Definition is_byte (b : Z) : Prop := 0 <= b < 256.

(** The four bytes of the low 32 bits of a number, lowest byte first. *)
Definition le32 (v : number) : list Z :=
  let u := Int32.ToUint32 v in
  [u mod 256; u / 2 ^ 8 mod 256; u / 2 ^ 16 mod 256; u / 2 ^ 24].

(** The 21 bytes of the record that sets the reference time: its length
    [0x15], the entry number, [01 00 00 00 81], the reference time and
    seven bytes [00]. *)
Definition reference_time_bytes (current : Z) (refT : number) : list Z :=
  [0x15] ++ le32 current ++ [0x01; 0; 0; 0; 0x81] ++ le32 refT
    ++ [0; 0; 0; 0; 0; 0; 0].

(** * Properties *)

(** ** Bits of the 32-bit operators *)

Section Bits.

Lemma ToUint32_bits (z n : Z) :
  Z.testbit (Int32.ToUint32 z) n = (n <? 32) && Z.testbit z n.
Proof.
  unfold Int32.ToUint32.
  destruct (Z.ltb_spec n 32); cbn [andb].
  - destruct (Z.lt_ge_cases n 0).
    + now rewrite !Z.testbit_neg_r.
    + now rewrite Z.mod_pow2_bits_low by lia.
  - now rewrite Z.mod_pow2_bits_high by lia.
Qed.

Lemma ToUint32_range (n : number) : 0 <= Int32.ToUint32 n < 2 ^ 32.
Proof. destruct n; cbn [Int32.ToUint32]; [apply Z.mod_pos_bound|]; lia. Qed.

Lemma bit31_of_ToUint32 (z : Z) :
  Z.testbit z 31 = negb (Int32.ToUint32 z <? 2 ^ 31).
Proof.
  pose proof (ToUint32_range z) as Hu.
  transitivity (Z.testbit (Int32.ToUint32 z) 31).
  { now rewrite ToUint32_bits. }
  destruct (Z.ltb_spec (Int32.ToUint32 z) (2 ^ 31)); cbn [negb].
  - apply Z.bits_above_log2; [lia|].
    destruct (Z.eq_dec (Int32.ToUint32 z) 0) as [->|]; [simpl; lia|].
    apply Z.log2_lt_pow2; lia.
  - apply Z.testbit_true; [lia|].
    replace (Int32.ToUint32 z / 2 ^ 31) with 1; [reflexivity|].
    apply Z.div_unique with (Int32.ToUint32 z - 2 ^ 31); lia.
Qed.

(** [ToInt32] keeps the low 31 bits and extends bit 31 upwards. *)
Lemma ToInt32_bits (z n : Z) :
  Z.testbit (Int32.ToInt32 z) n = Z.testbit z (Z.min n 31).
Proof.
  destruct (Z.lt_ge_cases n 0) as [Hneg|Hn].
  { rewrite Z.min_l by lia. now rewrite !Z.testbit_neg_r. }
  pose proof (ToUint32_range z) as Hu.
  pose proof (bit31_of_ToUint32 z) as H31.
  unfold Int32.ToInt32.
  destruct (Z.ltb_spec (Int32.ToUint32 z) (2 ^ 31)) as [Hlt|Hge]; cbn [negb] in H31.
  - rewrite ToUint32_bits.
    destruct (Z.ltb_spec n 32); cbn [andb].
    + destruct (Z.eq_dec n 31) as [->|]; [reflexivity|].
      now rewrite Z.min_l by lia.
    + rewrite Z.min_r by lia. now rewrite H31.
  - destruct (Z.ltb_spec n 31).
    + rewrite Z.min_l by lia.
      rewrite <- (Z.mod_pow2_bits_low (Int32.ToUint32 z - 2 ^ 32) 32 n) by lia.
      replace ((Int32.ToUint32 z - 2 ^ 32) mod 2 ^ 32) with (Int32.ToUint32 z).
      * rewrite ToUint32_bits.
        destruct (Z.ltb_spec n 32); [reflexivity|lia].
      * apply Z.mod_unique with (-1); lia.
    + rewrite Z.min_r by lia. rewrite H31.
      apply Z.bits_above_log2_neg; [lia|].
      destruct (Z.eq_dec (Z.pred (- (Int32.ToUint32 z - 2 ^ 32))) 0) as [->|];
        [simpl; lia|].
      apply Z.lt_le_trans with 31; [|lia].
      apply Z.log2_lt_pow2; lia.
Qed.

Lemma shiftl_bits (a k n : Z) :
  Z.testbit (Z.shiftl a k) n = (0 <=? n) && Z.testbit a (n - k).
Proof.
  destruct (Z.leb_spec 0 n); cbn [andb].
  - now apply Z.shiftl_spec.
  - now apply Z.testbit_neg_r.
Qed.

Lemma shiftr_bits (a k n : Z) :
  Z.testbit (Z.shiftr a k) n = (0 <=? n) && Z.testbit a (n + k).
Proof.
  destruct (Z.leb_spec 0 n); cbn [andb].
  - now apply Z.shiftr_spec.
  - now apply Z.testbit_neg_r.
Qed.

Lemma bits_0xFF (n : Z) : Z.testbit 0xFF n = (0 <=? n) && (n <? 8).
Proof.
  change 0xFF with (Z.ones 8).
  destruct (Z.leb_spec 0 n); cbn [andb].
  - destruct (Z.ltb_spec n 8).
    + apply Z.ones_spec_low; lia.
    + apply Z.ones_spec_high; lia.
  - now apply Z.testbit_neg_r.
Qed.

Lemma bits_0xFF00 (n : Z) : Z.testbit 0xFF00 n = (8 <=? n) && (n <? 16).
Proof.
  change 0xFF00 with (Z.shiftl 0xFF 8).
  rewrite shiftl_bits, bits_0xFF.
  destruct (Z.leb_spec 0 n), (Z.leb_spec 8 n), (Z.leb_spec 0 (n - 8)),
    (Z.ltb_spec (n - 8) 8), (Z.ltb_spec n 16); cbn [andb]; (reflexivity || lia).
Qed.

End Bits.

Ltac decide_order :=
  repeat match goal with
    | |- context [Z.min ?a ?b] =>
        first [rewrite (Z.min_l a b) by lia | rewrite (Z.min_r a b) by lia]
    | |- context [?a <? ?b] =>
        first [rewrite (proj2 (Z.ltb_lt a b)) by lia
              | rewrite (proj2 (Z.ltb_ge a b)) by lia]
    | |- context [?a <=? ?b] =>
        first [rewrite (proj2 (Z.leb_le a b)) by lia
              | rewrite (proj2 (Z.leb_gt a b)) by lia]
    end;
  cbn [andb orb negb].

Lemma swap32_bits (v n : Z) :
  0 <= n -> Z.testbit (swap32 v) n = Z.testbit v (swap32_source n).
Proof.
  intros Hn. unfold swap32, swap32_source, Int32.or, Int32.shl, Int32.and, Int32.shru.
  change (24 mod 32) with 24. change (8 mod 32) with 8.
  change (Int32.ToInt32 0xFF) with 0xFF.
  change (Int32.ToInt32 0xFF00) with 0xFF00.
  repeat rewrite ?Z.lor_spec, ?Z.land_spec, ?ToInt32_bits, ?shiftl_bits,
    ?shiftr_bits, ?ToUint32_bits, ?bits_0xFF, ?bits_0xFF00.
  assert (Hcases : n < 8 \/ 8 <= n < 16 \/ 16 <= n < 24 \/ 24 <= n < 31
                   \/ n = 31 \/ 32 <= n) by lia.
  destruct Hcases as [H|[H|[H|[H|[H|H]]]]];
    decide_order; rewrite ?andb_false_r, ?orb_false_r, ?andb_true_r;
    cbn [andb orb]; f_equal; lia.
Qed.

Lemma swap32_twice (v : Z) : swap32 (swap32 v) = Int32.ToInt32 v.
Proof.
  apply Z.bits_inj'. intros n Hn.
  rewrite swap32_bits, ToInt32_bits by assumption.
  unfold swap32_source.
  assert (Hcases : n < 8 \/ 8 <= n < 16 \/ 16 <= n < 24 \/ 24 <= n < 32
                   \/ 32 <= n) by lia.
  destruct Hcases as [H|[H|[H|[H|H]]]]; decide_order;
    (rewrite swap32_bits by lia); unfold swap32_source; decide_order;
    f_equal; lia.
Qed.

Lemma ToInt32_small (v : Z) : - 2 ^ 31 <= v < 2 ^ 31 -> Int32.ToInt32 v = v.
Proof.
  intros Hv. unfold Int32.ToInt32, Int32.ToUint32.
  destruct (Z.lt_ge_cases v 0).
  - replace (v mod 2 ^ 32) with (v + 2 ^ 32)
      by (apply Z.mod_unique with (-1); lia).
    destruct (Z.ltb_spec (v + 2 ^ 32) (2 ^ 31)); lia.
  - rewrite Z.mod_small by lia.
    destruct (Z.ltb_spec v (2 ^ 31)); lia.
Qed.

Lemma ToUint32_ToInt32 (v : Z) :
  Int32.ToUint32 (Int32.ToInt32 v) = Int32.ToUint32 v.
Proof.
  pose proof (ToUint32_range v) as Hu.
  unfold Int32.ToInt32.
  destruct (Z.ltb_spec (Int32.ToUint32 v) (2 ^ 31));
    cbn [Int32.ToUint32] in *.
  - apply Z.mod_small. lia.
  - symmetry. apply Z.mod_unique with (-1); lia.
Qed.

(** C9, as the code has it. The operators of [swap32] yield signed 32-bit
    integers, so [swap32] applied twice gives its argument read as a signed
    32-bit integer: the argument itself when it is below [2 ^ 31] (a signed
    32-bit integer included), and the argument less [2 ^ 32] when it is an
    unsigned 32-bit integer from [2 ^ 31] on. In both cases the 32 bits are
    those of the argument, and [>>> 0] (as [numToHex] applies it) reads
    them as the unsigned integer. *)
Theorem swap32_involution (v : Z) :
  swap32 (swap32 v) = Int32.ToInt32 v /\
  (- 2 ^ 31 <= v < 2 ^ 31 -> swap32 (swap32 v) = v) /\
  (2 ^ 31 <= v < 2 ^ 32 -> swap32 (swap32 v) = v - 2 ^ 32) /\
  (0 <= v < 2 ^ 32 -> Int32.ToUint32 (swap32 (swap32 v)) = v).
Proof.
  rewrite swap32_twice. split; [reflexivity|].
  split; [apply ToInt32_small|]. split; intros Hv.
  - unfold Int32.ToInt32, Int32.ToUint32. rewrite Z.mod_small by lia.
    destruct (Z.ltb_spec v (2 ^ 31)); lia.
  - rewrite ToUint32_ToInt32. apply Z.mod_small. lia.
Qed.

Lemma swap32_involution_witness :
  swap32 (swap32 0x12345678) = 0x12345678 /\
  swap32 (swap32 0xFFFFFFFF) = 0xFFFFFFFF - 2 ^ 32 /\
  Int32.ToUint32 (swap32 (swap32 0x80000000)) = 0x80000000.
Proof.
  split; [|split].
  - apply (swap32_involution 0x12345678). lia.
  - apply (swap32_involution 0xFFFFFFFF). lia.
  - apply (swap32_involution 0x80000000). lia.
Defined.

(** C9, as the claim has it, fails: [0x80000000] is a 32-bit value, its
    bytes reversed are [0x00000080], and reversing these gives
    [0x80 << 24], which is [- 2 ^ 31]. *)
Lemma swap32_unsigned_counterexample :
  0 <= 0x80000000 < 2 ^ 32 /\
  swap32 0x80000000 = 0x80 /\
  swap32 (swap32 0x80000000) = - 2 ^ 31 /\
  swap32 (swap32 0x80000000) <> 0x80000000.
Proof.
  split; [lia|]. split; [reflexivity|]. split; [reflexivity|].
  vm_compute. discriminate.
Qed.

(** ** The hexadecimal and base64 codec *)

Lemma string_filter_all_hex (s : string) : all_hex (string_filter is_hex s) = true.
Proof.
  induction s as [|c s IH]; [reflexivity|].
  cbn [string_filter]. destruct (is_hex c) eqn:Hc; [|exact IH].
  cbn [all_hex]. now rewrite Hc, IH.
Qed.

(** Two characters at a time. *)
Lemma string_pair_ind (Q : string -> Prop) :
  Q EmptyString ->
  (forall a, Q (String a EmptyString)) ->
  (forall a b s, Q s -> Q (String a (String b s))) ->
  forall s, Q s.
Proof.
  intros H0 H1 H2.
  assert (Hboth : forall s, Q s /\ forall a, Q (String a s)).
  { induction s as [|c s [IH IH']]; split; auto. }
  intros s. apply Hboth.
Qed.

Lemma bytes_of_hex_length (s : string) :
  all_hex s = true ->
  List.length (bytes_of_hex s) = (String.length s / 2)%nat.
Proof.
  induction s as [| a | a b s IH] using string_pair_ind; intros Hs;
    [reflexivity | reflexivity |].
  cbn [all_hex] in Hs.
  apply andb_true_iff in Hs as [Ha Hs]. apply andb_true_iff in Hs as [Hb Hs].
  cbn [bytes_of_hex String.length]. rewrite Ha, Hb. cbn [andb List.length].
  rewrite (IH Hs).
  change (S (S (String.length s))) with (1 * 2 + String.length s)%nat.
  rewrite Nat.div_add_l by lia. lia.
Qed.

(** C8, as the code has it. [hexToBase64] throws for a value that is not a
    string and for nothing else; of a string it encodes one byte per complete
    pair of the hexadecimal digits left after stripping, so that the last
    digit of an odd number of them is ignored. *)
Theorem hexToBase64_never_fails_on_strings (v : value) :
  ((exists e, hexToBase64 v = Throw e) <-> (forall s, v <> VStr s)) /\
  (forall s, v = VStr s ->
     let digits := string_filter is_hex s in
     hexToBase64 v = Normal (base64_of_bytes (bytes_of_hex digits)) /\
     List.length (bytes_of_hex digits) = (String.length digits / 2)%nat).
Proof.
  split.
  - split.
    + intros [e He] s ->. discriminate He.
    + intros Hv. destruct v; try (eexists; reflexivity).
      now destruct (Hv s).
  - intros s -> digits. split; [reflexivity|].
    apply bytes_of_hex_length, string_filter_all_hex.
Qed.

Lemma hexToBase64_never_fails_on_strings_witness :
  hexToBase64 (VStr "0b 01") = Normal "CwE=".
Proof.
  exact (proj1 (proj2 (hexToBase64_never_fails_on_strings (VStr "0b 01"))
                  "0b 01" eq_refl)).
Defined.

(** C8, as the claim has it, fails: three digits are left of ["abc"] and
    the codec returns the base64 text of the byte [0xab]. *)
Lemma hexToBase64_odd_length_counterexample :
  Nat.odd (String.length (string_filter is_hex "abc")) = true /\
  hexToBase64 (VStr "abc") = Normal "qw==".
Proof. split; reflexivity. Qed.

(** ** Appending to the ring buffer *)

Ltac fields_simpl :=
  cbn [_firstEntry _lastEntry _history _usedMemory _currentEntry _transfer
       _setTime _restarted _refTime _initialTime _entry loading _loading
       historyStatus timers fst snd].

(** Unfolds a call of [_addEntry] on a delegate that is not [loading] and
    splits on the three tests it makes. *)
Ltac addEntry_cases h :=
  unfold _addEntry;
  match goal with
  | Hl : loading h = false |- _ => rewrite ?Hl
  end;
  destruct (_usedMemory h <? _memorySize) eqn:?Hfill;
  destruct (_restarted h) eqn:?Hrestarted;
  destruct (number_eqb (_refTime h) 0) eqn:?Href;
  fields_simpl.

Lemma epoch_is_2001 : epoch = (31 * 365 + 8) * 86400.
Proof. reflexivity. Qed.

Lemma sub_epoch_nonzero (now : number) :
  now <> Num epoch -> number_eqb (now -' epoch) 0 = false.
Proof.
  intros Hnow. destruct now as [t|]; [|reflexivity].
  cbn [number_sub number_eqb]. apply Z.eqb_neq. intros Ht.
  apply Hnow. f_equal. lia.
Qed.



Lemma not_rem_memorySize_next (x : Z) : x <> Z.rem (x + 1) _memorySize.
Proof.
  unfold _memorySize. intros Heq.
  pose proof (Z.quot_rem' (x + 1) 4032). lia.
Qed.

(** The marker written at [l] is still there once the entry is written at
    [(l + 1) % _memorySize]. *)
Lemma lookup_marker_below {A} (m : gmap Z A) (l : Z) (x y : A) :
  <[ Z.rem (l + 1) _memorySize := x ]> (<[ l := y ]> m) !! (l + 1 - 1) = Some y.
Proof.
  replace (l + 1 - 1) with l by lia.
  rewrite lookup_insert_ne.
  - apply lookup_insert_eq.
  - intros Heq. symmetry in Heq. revert Heq. apply not_rem_memorySize_next.
Qed.

Section Appending.

Context {P : Type} `{Sensor P}.

Implicit Types (h : History P) (now : number).

Lemma addEntry_loading h now : loading (_addEntry h now) = loading h.
Proof.
  unfold _addEntry. destruct (loading h) eqn:Hl; [reflexivity|].
  destruct (_usedMemory h <? _memorySize), (_restarted h),
    (number_eqb (_refTime h) 0); reflexivity.
Qed.

Lemma addEntry_usedMemory h now :
  loading h = false ->
  _usedMemory (_addEntry h now) =
    (if _usedMemory h <? _memorySize then _usedMemory h + 1 else _usedMemory h)
    + (if number_eqb (_refTime h) 0 then 1 else 0).
Proof. intros Hl. addEntry_cases h; lia. Qed.


Lemma addEntry_lastEntry h now :
  loading h = false ->
  _lastEntry (_addEntry h now) =
    _firstEntry (_addEntry h now) + _usedMemory (_addEntry h now).
Proof. intros Hl. addEntry_cases h; lia. Qed.


Lemma addEntry_refTime h now :
  loading h = false ->
  _refTime (_addEntry h now) =
    if number_eqb (_refTime h) 0 then now -' epoch else _refTime h.
Proof. intros Hl. addEntry_cases h; reflexivity. Qed.

Lemma addEntry_anchored h now : anchored h -> anchored (_addEntry h now).
Proof.
  intros (Hl & Href & Hused). unfold anchored.
  rewrite addEntry_loading, addEntry_refTime, addEntry_usedMemory, Href
    by assumption.
  split; [assumption|]. split; [assumption|].
  destruct (Z.ltb_spec (_usedMemory h) _memorySize); lia.
Qed.

Lemma states_after_loading h nows h' :
  loading h = false -> h' ∈ states_after h nows -> loading h' = false.
Proof.
  revert h. induction nows as [|now rest IH]; intros h Hl Hin;
    cbn [states_after] in Hin.
  - now apply elem_of_nil in Hin.
  - apply elem_of_cons in Hin as [->|Hin].
    + now rewrite addEntry_loading.
    + apply IH in Hin; [assumption|]. now rewrite addEntry_loading.
Qed.

Lemma states_after_balanced h nows h' :
  loading h = false -> h' ∈ states_after h nows ->
  _lastEntry h' - _firstEntry h' = _usedMemory h'.
Proof.
  revert h. induction nows as [|now rest IH]; intros h Hl Hin;
    cbn [states_after] in Hin.
  - now apply elem_of_nil in Hin.
  - apply elem_of_cons in Hin as [->|Hin].
    + rewrite addEntry_lastEntry by assumption. lia.
    + apply IH in Hin; [assumption|]. now rewrite addEntry_loading.
Qed.

Lemma states_after_anchored h nows h' :
  anchored h -> h' ∈ states_after h nows -> anchored h'.
Proof.
  revert h. induction nows as [|now rest IH]; intros h Hh Hin;
    cbn [states_after] in Hin.
  - now apply elem_of_nil in Hin.
  - apply elem_of_cons in Hin as [->|Hin].
    + now apply addEntry_anchored.
    + apply IH in Hin; [assumption|]. now apply addEntry_anchored.
Qed.

Lemma addEntry_usedMemory_mono h now :
  loading h = false -> _usedMemory h <= _usedMemory (_addEntry h now).
Proof.
  intros Hl. rewrite addEntry_usedMemory by assumption.
  destruct (_usedMemory h <? _memorySize), (number_eqb (_refTime h) 0); lia.
Qed.

Lemma states_after_usedMemory_mono h nows h' :
  loading h = false -> h' ∈ states_after h nows ->
  _usedMemory h <= _usedMemory h'.
Proof.
  revert h. induction nows as [|now rest IH]; intros h Hl Hin;
    cbn [states_after] in Hin.
  - now apply elem_of_nil in Hin.
  - pose proof (addEntry_usedMemory_mono h now Hl) as Hstep.
    apply elem_of_cons in Hin as [->|Hin]; [exact Hstep|].
    apply IH in Hin; [lia|]. now rewrite addEntry_loading.
Qed.

Lemma at_epoch_or_not now : now = Num epoch \/ now <> Num epoch.
Proof.
  destruct now as [z|]; [|right; discriminate].
  destruct (Z.eq_dec z epoch) as [->|Hne]; [now left|].
  right. intros [= Heq]. contradiction.
Qed.

(** A run of appends to a delegate whose reference time is still unset
    after [k] appends at the device epoch. *)
Lemma unset_run (k : nat) h0 nows (i : nat) h :
  loading h0 = false -> number_eqb (_refTime h0) 0 = true ->
  _usedMemory h0 = 2 * Z.of_nat k -> (k <= 2016)%nat ->
  states_after h0 nows !! i = Some h ->
  _usedMemory h <= 4032 <->
  ~ ((2016 - k <= i)%nat /\
     Forall (fun now => now = Num epoch) (take (2016 - k) nows)).
Proof.
  revert k h0 i.
  induction nows as [|now rest IH]; intros k h0 i Hl Href Hused Hk Hi;
    cbn [states_after] in Hi; [discriminate|].
  assert (Hl1 : loading (_addEntry h0 now) = false)
    by now rewrite addEntry_loading.
  destruct (Nat.eq_dec k 2016%nat) as [->|Hk'].
  - assert (Hfirst : 4033 <= _usedMemory (_addEntry h0 now)).
    { rewrite addEntry_usedMemory, Href, Hused by assumption.
      unfold _memorySize. destruct (Z.ltb_spec (2 * Z.of_nat 2016) 4032); lia. }
    assert (Hgrown : 4033 <= _usedMemory h).
    { destruct i as [|i]; cbn in Hi.
      - injection Hi as <-. exact Hfirst.
      - apply list_elem_of_lookup_2 in Hi.
        apply states_after_usedMemory_mono in Hi; [lia|exact Hl1]. }
    split; [lia|]. intros Hnot. exfalso. apply Hnot.
    split; [lia|]. constructor.
  - assert (Hroom : _usedMemory h0 < _memorySize)
      by (unfold _memorySize; lia).
    replace (2016 - k)%nat with (S (2016 - S k)) by lia. cbn [take].
    rewrite Forall_cons.
    destruct (at_epoch_or_not now) as [->|Hnow].
    + assert (Href1 : number_eqb (_refTime (_addEntry h0 epoch)) 0 = true).
      { rewrite addEntry_refTime, Href by assumption. reflexivity. }
      assert (Hused1 : _usedMemory (_addEntry h0 epoch)
                       = 2 * Z.of_nat (S k)).
      { rewrite addEntry_usedMemory, Href by assumption.
        destruct (Z.ltb_spec (_usedMemory h0) _memorySize); lia. }
      destruct i as [|i]; cbn in Hi.
      * injection Hi as <-. split; [intros _ [Hle _]; lia|].
        intros _. rewrite Hused1. lia.
      * rewrite (IH (S k) (_addEntry h0 epoch) i Hl1 Href1 Hused1) by
          (assumption || lia).
        split; intros Hnot [Hle Hall]; apply Hnot; (split; [lia|]).
        -- apply Hall.
        -- split; [reflexivity|exact Hall].
    + assert (Hanchored : anchored (_addEntry h0 now)).
      { unfold anchored.
        rewrite addEntry_refTime, addEntry_usedMemory, Href by assumption.
        split; [exact Hl1|]. split; [now apply sub_epoch_nonzero|].
        destruct (Z.ltb_spec (_usedMemory h0) _memorySize);
          unfold _memorySize in *; lia. }
      assert (Hh : anchored h).
      { destruct i as [|i]; cbn in Hi.
        - injection Hi as <-. exact Hanchored.
        - apply list_elem_of_lookup_2 in Hi.
          exact (states_after_anchored _ _ _ Hanchored Hi). }
      split; [intros _ [_ [Heq _]]; contradiction|].
      intros _. destruct Hh as (_ & _ & Hbound). exact Hbound.
Qed.

(** C1, where the code departs from it. After each call of a sequence of
    [_addEntry] calls on the empty store, [_lastEntry - _firstEntry =
    _usedMemory]. The test [_refTime === 0] for a reference time that is
    not set yet also holds after a call at the device epoch, and the block
    it guards adds a marker without looking at the capacity: [_usedMemory]
    is at most 4032 after call [i + 1] unless the first 2016 calls were all
    at the device epoch and left the buffer full with the reference time
    still [0], and another call followed. *)
Theorem ring_bookkeeping_after_each_addEntry
    (entry0 : entry P) (nows : list number) (i : nat) (h : History P) :
  states_after (new_History entry0) nows !! i = Some h ->
  _lastEntry h - _firstEntry h = _usedMemory h /\
  _memorySize = 4032 /\
  (_usedMemory h <= _memorySize <->
   ~ ((2016 <= i)%nat /\
      Forall (fun now => now = Num epoch) (take 2016 nows))).
Proof.
  intros Hi. split.
  - apply list_elem_of_lookup_2 in Hi.
    now apply (states_after_balanced (new_History entry0) nows).
  - split; [reflexivity|].
    apply (unset_run 0 (new_History entry0) nows i h);
      (reflexivity || lia || assumption).
Qed.

(** C2. A call of [_addEntry] that finds the reference time unset, as the
    first call ever does, sets [_refTime] to the entry's time minus the
    device epoch and [_initialTime] to the entry's time, and stores the
    marker [{time, setRefTime: 1}] at the index just below [_lastEntry],
    the index of the entry itself; on the empty store these are the
    indices 1 and 2. *)
Theorem first_addEntry_sets_reference_time h now :
  loading h = false ->
  _refTime h = Num 0 ->
  let h' := _addEntry h now in
  epoch = (31 * 365 + 8) * 86400 /\
  _refTime h' = now -' epoch /\
  _initialTime h' = Some now /\
  _history h' !! (_lastEntry h' - 1) = Some (RefTimeMarker now) /\
  _history h' !! Z.rem (_lastEntry h') _memorySize
    = Some (Stored (Entry now (fields (_entry h)))) /\
  _lastEntry h' - 1 < _lastEntry h' /\
  (_usedMemory h = 0 -> _lastEntry h' = 2).
Proof.
  intros Hl Href h'. subst h'.
  assert (Hzero : number_eqb (_refTime h) 0 = true) by now rewrite Href.
  split; [reflexivity|].
  addEntry_cases h; try discriminate Hzero;
    repeat match goal with |- _ /\ _ => split end;
    try reflexivity; try lia;
    try apply lookup_insert_eq; try apply lookup_marker_below.
  all: intros Hu; apply Z.ltb_ge in Hfill; unfold _memorySize in Hfill; lia.
Qed.




End Appending.

(** ** The transfer of entries *)

Section Transfer.

Context {P : Type} `{Sensor P}.

Implicit Types (h : History P) (now : number).

(** C3, as the code has it. A write to the history request whose decoded
    entry is [0] sets the cursor [_currentEntry] to [1], which is
    [_firstEntry + 1] as long as the buffer has not wrapped
    ([_firstEntry = 0]); a write whose decoded entry [n] is not [0] sets
    it to [n]. Either way a transfer is started. *)
Theorem history_request_sets_cursor h (request : string) :
  exists h',
    _onSetHistoryRequest h (VStr request) = Normal h' /\
    let n := requested_entry (base64ToHex_string request) in
    (n = 0 -> _currentEntry h' = 1) /\
    (n <> 0 -> _currentEntry h' = n) /\
    _transfer h' = true /\
    (n = 0 -> _firstEntry h = 0 -> _currentEntry h' = _firstEntry h + 1).
Proof.
  unfold _onSetHistoryRequest. cbn [base64ToHex].
  eexists. split; [reflexivity|]. fields_simpl.
  destruct (Z.eqb_spec (requested_entry (base64ToHex_string request)) 0)
    as [Hn|Hn]; cbn [negb]; repeat split; intros; lia.
Qed.

Lemma with_transfer_idle h :
  _transfer h = false ->
  with_transfer h (_currentEntry h) false (_setTime h) = h.
Proof. destruct h. fields_simpl. now intros ->. Qed.

(** C10. Reading the history entries while no transfer is active, either
    because no request was received since the constructor ran or because
    the last read found the transfer exhausted, passes the base64 text of
    the single byte [00] to the callback and leaves the delegate as it
    is, no transfer active. *)
Theorem idle_read_returns_sentinel h :
  _transfer h = false ->
  _onGetEntries h = (h, Normal "AA==") /\
  bytes_of_base64 "AA==" = [0] /\
  _transfer (fst (_onGetEntries h)) = false.
Proof.
  intros Hidle. unfold _onGetEntries.
  rewrite Hidle, orb_true_r, with_transfer_idle by assumption.
  repeat split. exact Hidle.
Qed.

Lemma addEntry_unset h now :
  loading h = false -> _usedMemory h < _memorySize ->
  number_eqb (_refTime h) 0 = true ->
  _addEntry h now =
    mkHistory 0 (_usedMemory h + 1 + 1)
      (<[ Z.rem (_usedMemory h + 1 + 1) _memorySize
            := Stored (Entry now (fields (_entry h))) ]>
         (<[ _usedMemory h + 1 := RefTimeMarker now ]> (_history h)))
      (_usedMemory h + 1 + 1) (_currentEntry h) (_transfer h) (_setTime h)
      (_restarted h) (now -' epoch) (Some now)
      (Entry now (fields (_entry h))) false (_loading h)
      (Some (hexToBase64_string
               (status_text now (now -' epoch) (_usedMemory h + 1 + 1) 0)))
      (timers h).
Proof.
  intros Hl Hfill Href. apply Z.ltb_lt in Hfill.
  unfold _addEntry. now rewrite Hl, Hfill, Href.
Qed.

Lemma addEntry_filling h now :
  loading h = false -> _usedMemory h < _memorySize ->
  number_eqb (_refTime h) 0 = false ->
  _addEntry h now =
    mkHistory 0 (_usedMemory h + 1)
      (<[ Z.rem (_usedMemory h + 1) _memorySize
            := Stored (Entry now (fields (_entry h))) ]> (_history h))
      (_usedMemory h + 1) (_currentEntry h) (_transfer h) (_setTime h)
      (_restarted h) (_refTime h) (_initialTime h)
      (Entry now (fields (_entry h))) false (_loading h)
      (Some (hexToBase64_string
               (status_text now (_refTime h) (_usedMemory h + 1) 0)))
      (timers h).
Proof.
  intros Hl Hfill Href. apply Z.ltb_lt in Hfill.
  unfold _addEntry. now rewrite Hl, Hfill, Href.
Qed.

Lemma first_append (entry0 : entry P) (f1 : P) (t1 : number) :
  _addEntry (with_fields (new_History entry0) f1) t1 =
    filling (<[ 2 := Stored (Entry t1 f1) ]>
               (<[ 1 := RefTimeMarker t1 ]> {[ 0 := NoValue ]}))
      2 t1 (Entry t1 f1).
Proof. now rewrite addEntry_unset. Qed.

Lemma next_append cells (n : Z) (t1 : number) (e : entry P) (f : P)
    (t : number) :
  number_eqb (t1 -' epoch) 0 = false -> 0 <= n -> n + 1 < _memorySize ->
  _addEntry (with_fields (filling cells n t1 e) f) t =
    filling (<[ n + 1 := Stored (Entry t f) ]> cells) (n + 1) t1 (Entry t f).
Proof.
  intros Ht1 Hn Hroom.
  rewrite addEntry_filling by (cbn; (reflexivity || assumption || lia)).
  unfold with_fields, filling. fields_simpl. cbn [fields time].
  rewrite Z.rem_small by (unfold _memorySize in *; lia). reflexivity.
Qed.

Lemma three_appends (entry0 : entry P) (f1 f2 f3 : P) (t1 t2 t3 : number) :
  t1 <> Num epoch ->
  _addEntry
    (with_fields
       (_addEntry
          (with_fields (_addEntry (with_fields (new_History entry0) f1) t1) f2)
          t2) f3) t3
  = three_entries f1 f2 f3 t1 t2 t3.
Proof.
  intros Ht1. apply sub_epoch_nonzero in Ht1.
  rewrite first_append.
  rewrite !next_append by (assumption || (unfold _memorySize; lia)).
  reflexivity.
Qed.

End Transfer.

(** ** Appending while the persisted history is being read *)

Section Loading.

Context {P : Type} `{Sensor P}.

(** What the guard at the head of [_addEntry] does when it fires: the
    store is left alone and a retry is scheduled. *)
Lemma addEntry_deferred (h : History P) (now : number) :
  loading h = true ->
  _history (_addEntry h now) = _history h /\
  _usedMemory (_addEntry h now) = _usedMemory h /\
  timers (_addEntry h now) = timers h ++ [now].
Proof. intros Hl. unfold _addEntry. now rewrite Hl. Qed.

(** C6, where the code departs from it. Between the constructor and the
    callback of [readFile] the flag [_loading] is set, but [_addEntry]
    tests [loading]: the call appends at once (marker at index 1, entry
    at index 2) and schedules no retry, and the callback then replaces
    the buffer by the persisted one, without the entry. *)
Theorem addEntry_while_loading_appends
    (entry0 : entry P) (now : number) (file : snapshot P) :
  let h := new_History entry0 in
  let h' := _addEntry h now in
  _loading h = true /\
  _usedMemory h' = 2 /\
  _history h' !! 2 = Some (Stored (Entry now (fields entry0))) /\
  timers h' = [] /\
  _history (_load_callback h' (Some file)) = history file /\
  _usedMemory (_load_callback h' (Some file)) = usedMemory file /\
  timers (_load_callback h' (Some file)) = [].
Proof.
  intros h h'. subst h h'.
  rewrite addEntry_unset by (reflexivity || (cbn; unfold _memorySize; lia)).
  repeat split.
Qed.

End Loading.

(** ** The [Contact] delegate *)

(** C7, where the code departs from it. When the contact value is set to
    [1], [timesOpened] goes up by [1] and an entry with status [1] is
    appended under the fingerprint [01 0601]; but [now] is [moment.unix()],
    an invalid moment, so that [lastActivation] becomes [NaN], whatever the
    clock and [_initialTime] are, and [NaN] is the time of the entry. *)
Theorem contact_opened_lastActivation_NaN (c : Contact.t) :
  loading (Contact.delegate c) = false ->
  let c' := Contact.onContactDidSet c 1 in
  let h' := Contact.delegate c' in
  Contact.timesOpened c' = Contact.timesOpened c + 1 /\
  Contact.lastActivation c' = NaN /\
  _history h' !! Z.rem (_lastEntry h') _memorySize = Some (Stored (Entry NaN 1)) /\
  _fingerPrint (Sensor := Contact.sensor) = "01 0601"%string /\
  historyStatus h' =
    Some (hexToBase64_string
            (status_text (H := Contact.sensor) NaN (_refTime h')
               (_usedMemory h') (_firstEntry h'))).
Proof.
  intros Hl c' h'. subst c' h'.
  unfold Contact.onContactDidSet. cbn [Contact.timesOpened Contact.lastActivation
                                      Contact.delegate moment.unix].
  split; [reflexivity|]. split; [now destruct (_initialTime _)|].
  assert (Hl' : loading (with_fields (Contact.delegate c) 1) = false) by exact Hl.
  split; [|split; [reflexivity|]].
  - addEntry_cases (with_fields (Contact.delegate c) 1); apply lookup_insert_eq.
  - addEntry_cases (with_fields (Contact.delegate c) 1); reflexivity.
Qed.

(** ** The properties at work *)

Module Scenarios.

Import Contact Examples.

Lemma addEntries_last {P} `{Sensor P} (h : History P) (nows : list number) :
  nows <> [] -> addEntries h nows ∈ states_after h nows.
Proof.
  revert h. induction nows as [|now rest IH]; intros h Hne; [done|].
  cbn [states_after]. destruct rest as [|now' rest].
  - apply list_elem_of_here.
  - apply list_elem_of_further. now apply (IH (_addEntry h now)).
Qed.

Lemma states_after_last {P} `{Sensor P} (h : History P)
    (nows : list number) :
  nows <> [] ->
  states_after h nows !! (List.length nows - 1)%nat
    = Some (addEntries h nows).
Proof.
  revert h. induction nows as [|now rest IH]; intros h Hne; [done|].
  destruct rest as [|now' rest]; [reflexivity|].
  replace (List.length (now :: now' :: rest) - 1)%nat
    with (S (List.length (now' :: rest) - 1))
    by (cbn [List.length]; lia).
  exact (IH (_addEntry h now) ltac:(discriminate)).
Qed.

Lemma ring_bookkeeping_witness :
  let h := addEntries (new_History (Entry 0 0))
             [Num 1600000000; Num 1600000600] in
  let h' := addEntries (new_History (Entry 0 0)) at_epoch in
  _lastEntry h - _firstEntry h = _usedMemory h /\
  _usedMemory h <= _memorySize /\
  _lastEntry h' - _firstEntry h' = _usedMemory h' /\
  ~ _usedMemory h' <= _memorySize.
Proof.
  intros h h'.
  destruct (ring_bookkeeping_after_each_addEntry (Entry 0 0)
              [Num 1600000000; Num 1600000600] 1 h)
    as (Hbalance & _ & Hbound); [reflexivity|].
  assert (Hcalls : at_epoch <> []).
  { unfold at_epoch. change 2017%nat with (S 2016). cbn [repeat].
    discriminate. }
  pose proof (states_after_last (new_History (Entry 0 0)) at_epoch Hcalls)
    as Hlast.
  change (List.length at_epoch - 1)%nat with 2016%nat in Hlast.
  destruct (ring_bookkeeping_after_each_addEntry (Entry 0 0)
              at_epoch 2016 _ Hlast)
    as (Hbalance' & _ & Hbound').
  split; [exact Hbalance|]. split.
  - apply Hbound. intros [Hle _]. lia.
  - split; [exact Hbalance'|]. intros Hle. apply Hbound' in Hle.
    apply Hle. split; [lia|].
    apply Forall_take, Forall_forall. intros now Hin.
    apply list_elem_of_In in Hin. exact (repeat_spec _ _ _ Hin).
Defined.

(** The run on which the code departs from C1: 2017 appends at the device
    epoch never set a reference time other than [0], each of them stores
    a marker with its entry, and [_usedMemory] ends at 4033. *)
Lemma usedMemory_exceeds_capacity_at_epoch :
  let h := addEntries (new_History (Entry 0 0)) at_epoch in
  h ∈ states_after (new_History (Entry 0 0)) at_epoch /\
  _refTime h = Num 0 /\
  _usedMemory h = 4033 /\
  ~ (_usedMemory h <= 4032 /\ _lastEntry h - _firstEntry h = _usedMemory h).
Proof.
  intros h.
  assert (Hused : _usedMemory h = 4033) by (lazy; reflexivity).
  split.
  { apply addEntries_last. unfold at_epoch.
    change 2017%nat with (S 2016). cbn [repeat]. discriminate. }
  split; [lazy; reflexivity|]. split; [exact Hused|].
  rewrite Hused. lia.
Qed.

Lemma first_addEntry_witness :
  let h' := _addEntry (new_History (Entry 0 0)) 1600000000 in
  _refTime h' = Num (1600000000 - 978307200) /\
  _initialTime h' = Some (Num 1600000000) /\
  _history h' !! 1 = Some (RefTimeMarker 1600000000) /\
  _history h' !! 2 = Some (Stored (Entry 1600000000 0)).
Proof.
  destruct (first_addEntry_sets_reference_time (new_History (Entry 0 0))
              1600000000 eq_refl eq_refl)
    as (_ & Href & Hinit & Hmarker & Hentry & _ & _).
  repeat split; assumption.
Defined.

Lemma request_from_oldest_entry :
  base64ToHex_string request_from_oldest = "0114000000000000"%string /\
  requested_entry (base64ToHex_string request_from_oldest) = 0.
Proof. split; reflexivity. Qed.

Lemma wrapped_bookkeeping :
  _firstEntry wrapped = 2 /\ _lastEntry wrapped = 4034 /\
  _usedMemory wrapped = 4032 /\ _restarted wrapped = false.
Proof. lazy. repeat split. Qed.

Lemma history_request_witness :
  exists h',
    _onSetHistoryRequest empty (VStr request_from_oldest) = Normal h' /\
    _currentEntry h' = _firstEntry empty + 1 /\
    _transfer h' = true.
Proof.
  destruct (history_request_sets_cursor empty request_from_oldest)
    as (h' & Hrequest & Hzero & _ & Htransfer & Hfirst).
  exists h'. split; [exact Hrequest|]. split; [|exact Htransfer].
  apply Hfirst; reflexivity.
Defined.

(** C3, as the claim has it, fails: on the wrapped store the oldest
    entry kept is at [_firstEntry + 1 = 3], and a request for entry [0]
    sets the cursor to [1]. *)
Lemma history_request_cursor_counterexample :
  exists h',
    requested_entry (base64ToHex_string request_from_oldest) = 0 /\
    _onSetHistoryRequest wrapped (VStr request_from_oldest) = Normal h' /\
    _firstEntry wrapped + 1 = 3 /\
    _currentEntry h' = 1 /\
    _currentEntry h' <> _firstEntry wrapped + 1.
Proof.
  exists (with_transfer wrapped 1 true (_setTime wrapped)).
  destruct wrapped_bookkeeping as (Hfirst & _).
  split; [reflexivity|]. split; [reflexivity|].
  unfold with_transfer. fields_simpl. rewrite Hfirst.
  repeat split. lia.
Qed.

Lemma full_bookkeeping :
  _firstEntry full = 0 /\ _usedMemory full = 4032 /\
  _restarted full = true /\ loading full = false.
Proof. lazy. repeat split. Qed.


Lemma idle_read_witness :
  _onGetEntries empty = (empty, Normal "AA=="%string).
Proof. exact (proj1 (idle_read_returns_sentinel empty eq_refl)). Defined.

Lemma contact_opened_witness :
  _initialTime (delegate closed_door) = Some (Num 1600000000) /\
  timesOpened (onContactDidSet closed_door 1) = 1 /\
  lastActivation (onContactDidSet closed_door 1) = NaN.
Proof.
  destruct (contact_opened_lastActivation_NaN closed_door eq_refl)
    as (Htimes & Hlast & _).
  split; [reflexivity|]. split; [exact Htimes|exact Hlast].
Defined.

End Scenarios.

(** * Further properties *)

(** ** Hexadecimal digits *)

Lemma code_chr (z : Z) : 0 <= z < 256 -> code (chr z) = z.
Proof.
  intros Hz. unfold code, chr.
  rewrite N_ascii_embedding by lia. lia.
Qed.

Lemma chr_code (c : ascii) : chr (code c) = c.
Proof. unfold code, chr. rewrite N2Z.id. apply ascii_N_embedding. Qed.

Lemma code_range (c : ascii) : 0 <= code c < 256.
Proof. unfold code. pose proof (N_ascii_bounded c). lia. Qed.

Ltac unfold_classes :=
  unfold is_hex, is_lower_hex, hex_value, hex_digit, between in *.

Ltac split_orders :=
  repeat match goal with
    | |- context [?a <=? ?b] => destruct (Z.leb_spec a b)
    | |- context [?a <? ?b] => destruct (Z.ltb_spec a b)
    | |- context [?a =? ?b] => destruct (Z.eqb_spec a b)
    | H : context [?a <=? ?b] |- _ => destruct (Z.leb_spec a b)
    | H : context [?a <? ?b] |- _ => destruct (Z.ltb_spec a b)
    end;
  cbn [andb orb negb] in *.

Lemma hex_digit_lower (d : Z) : 0 <= d < 16 -> is_lower_hex (hex_digit d) = true.
Proof.
  intros Hd. unfold is_lower_hex, hex_digit, between.
  destruct (Z.ltb_spec d 10); rewrite code_chr by lia; split_orders;
    (reflexivity || lia).
Qed.

Lemma lower_hex_is_hex (c : ascii) : is_lower_hex c = true -> is_hex c = true.
Proof. unfold_classes. intros Hc. split_orders; (reflexivity || discriminate || lia). Qed.

Lemma all_lower_hex_all_hex (s : string) :
  all_lower_hex s = true -> all_hex s = true.
Proof.
  induction s as [|c s IH]; [reflexivity|]. cbn [all_lower_hex all_hex].
  intros [Hc Hs]%andb_true_iff. now rewrite lower_hex_is_hex, IH.
Qed.

Lemma hex_value_digit (d : Z) : 0 <= d < 16 -> hex_value (hex_digit d) = d.
Proof.
  intros Hd. unfold hex_value, hex_digit, between.
  destruct (Z.ltb_spec d 10); rewrite !code_chr by lia; split_orders; lia.
Qed.

Lemma hex_digit_value (c : ascii) :
  is_lower_hex c = true -> hex_digit (hex_value c) = c.
Proof.
  intros Hc. rewrite <- (chr_code c) at 2. unfold_classes.
  pose proof (code_range c). split_orders; try discriminate; f_equal; lia.
Qed.

Lemma hex_value_range (c : ascii) : is_hex c = true -> 0 <= hex_value c < 16.
Proof. unfold_classes. intros Hc. split_orders; try discriminate; lia. Qed.

Lemma append_nil (t : string) : "" +:+ t = t.
Proof. reflexivity. Qed.

Lemma append_cons (c : ascii) (s t : string) :
  String c s +:+ t = String c (s +:+ t).
Proof. reflexivity. Qed.

Lemma append_length (s t : string) :
  String.length (s +:+ t) = (String.length s + String.length t)%nat.
Proof.
  induction s as [|c s IH]; rewrite ?append_nil, ?append_cons;
    cbn [String.length]; [reflexivity|now rewrite IH].
Qed.

Lemma append_assoc (s t u : string) : (s +:+ t) +:+ u = s +:+ (t +:+ u).
Proof.
  induction s as [|c s IH]; rewrite ?append_nil, ?append_cons;
    [reflexivity|now rewrite IH].
Qed.

Lemma all_hex_append (s t : string) :
  all_hex (s +:+ t) = all_hex s && all_hex t.
Proof.
  induction s as [|c s IH]; rewrite ?append_nil, ?append_cons; cbn [all_hex];
    [reflexivity|]. now rewrite IH, andb_assoc.
Qed.

Lemma all_lower_hex_append (s t : string) :
  all_lower_hex (s +:+ t) = all_lower_hex s && all_lower_hex t.
Proof.
  induction s as [|c s IH]; rewrite ?append_nil, ?append_cons;
    cbn [all_lower_hex]; [reflexivity|]. now rewrite IH, andb_assoc.
Qed.

(** ** Reading back what [numToHex] writes *)

Lemma parse_hex_digits_append (s t : string) (a : Z) :
  all_hex s = true ->
  parse_hex_digits (s +:+ t) a = parse_hex_digits t (parse_hex_digits s a).
Proof.
  revert a. induction s as [|c s IH]; intros a Hs; [reflexivity|].
  cbn [all_hex] in Hs. apply andb_true_iff in Hs as [Hc Hs].
  rewrite append_cons. cbn [parse_hex_digits]. rewrite Hc. now apply IH.
Qed.

Lemma parse_hex_digits_acc (s : string) (a : Z) :
  all_hex s = true ->
  parse_hex_digits s a =
    a * 16 ^ Z.of_nat (String.length s) + parse_hex_digits s 0.
Proof.
  revert a. induction s as [|c s IH]; intros a Hs.
  - cbn. lia.
  - cbn [all_hex] in Hs. apply andb_true_iff in Hs as [Hc Hs].
    cbn [parse_hex_digits String.length]. rewrite Hc.
    rewrite (IH (16 * a + hex_value c)), (IH (16 * 0 + hex_value c)) by assumption.
    rewrite Nat2Z.inj_succ, Z.pow_succ_r by lia. lia.
Qed.

Lemma parse_hex_digits_bound (s : string) :
  all_hex s = true ->
  0 <= parse_hex_digits s 0 < 16 ^ Z.of_nat (String.length s).
Proof.
  induction s as [|c s IH]; intros Hs.
  - cbn. lia.
  - cbn [all_hex] in Hs. apply andb_true_iff in Hs as [Hc Hs].
    cbn [parse_hex_digits String.length]. rewrite Hc.
    rewrite parse_hex_digits_acc by assumption.
    pose proof (hex_value_range c Hc). specialize (IH Hs).
    rewrite Nat2Z.inj_succ, Z.pow_succ_r by lia. nia.
Qed.

(** The digits [hex_of_nat_digits] puts before [acc]. *)
Lemma hex_of_nat_digits_spec (fuel : nat) (u : Z) (acc : string) :
  0 <= u < 16 ^ Z.of_nat fuel ->
  exists ds,
    hex_of_nat_digits fuel u acc = ds +:+ acc /\
    all_lower_hex ds = true /\
    (String.length ds <= fuel)%nat /\
    (fuel <> 0%nat -> String.length ds <> 0%nat) /\
    parse_hex_digits ds 0 = u.
Proof.
  revert u acc. induction fuel as [|fuel IH]; intros u acc Hu.
  - exists EmptyString. cbn in *. repeat split; try lia; try congruence.
  - cbn [hex_of_nat_digits].
    assert (Hd : 0 <= u mod 16 < 16) by (apply Z.mod_pos_bound; lia).
    destruct (Z.eqb_spec (u / 16) 0) as [Hq|Hq].
    + exists (String (hex_digit (u mod 16)) EmptyString).
      rewrite append_cons, append_nil.
      cbn [all_lower_hex String.length parse_hex_digits].
      rewrite hex_digit_lower, lower_hex_is_hex, hex_value_digit
        by (try apply hex_digit_lower; lia).
      repeat split; try lia.
      pose proof (Z.div_mod u 16). lia.
    + destruct (IH (u / 16) (String (hex_digit (u mod 16)) acc)) as
        (ds & Heq & Hlower & Hlen & _ & Hparse).
      { rewrite Nat2Z.inj_succ, Z.pow_succ_r in Hu by lia.
        split; [apply Z.div_pos; lia|].
        apply Z.div_lt_upper_bound; lia. }
      exists (ds +:+ String (hex_digit (u mod 16)) EmptyString).
      rewrite Heq, append_assoc, all_lower_hex_append, append_length,
        parse_hex_digits_append by now apply all_lower_hex_all_hex.
      rewrite append_cons, append_nil.
      cbn [all_lower_hex String.length parse_hex_digits].
      rewrite Hlower, Hparse, hex_digit_lower, lower_hex_is_hex,
        hex_value_digit by (try apply hex_digit_lower; lia).
      repeat split; try lia.
      pose proof (Z.div_mod u 16). lia.
Qed.

Lemma append_nil_r (s : string) : s +:+ "" = s.
Proof.
  induction s as [|c s IH]; rewrite ?append_nil, ?append_cons;
    [reflexivity|now rewrite IH].
Qed.

Lemma toString16_spec (u : Z) :
  0 <= u < 2 ^ 32 ->
  all_lower_hex (toString16 u) = true /\
  (1 <= String.length (toString16 u) <= 8)%nat /\
  parse_hex_digits (toString16 u) 0 = u.
Proof.
  intros Hu. unfold toString16.
  destruct (hex_of_nat_digits_spec 8 u EmptyString) as
    (ds & -> & Hlower & Hlen & Hne & Hparse); [cbn; lia|].
  rewrite append_nil_r. repeat split; try assumption.
  assert (String.length ds <> 0%nat) by now apply Hne. lia.
Qed.

Lemma string_drop_spec (k : nat) (s : string) :
  all_hex s = true -> (k <= String.length s)%nat ->
  String.length (string_drop k s) = (String.length s - k)%nat /\
  all_hex (string_drop k s) = true /\
  (all_lower_hex s = true -> all_lower_hex (string_drop k s) = true) /\
  parse_hex_digits (string_drop k s) 0 =
    parse_hex_digits s 0 mod 16 ^ Z.of_nat (String.length s - k).
Proof.
  revert s. induction k as [|k IH]; intros s Hs Hk.
  - cbn [string_drop]. rewrite Nat.sub_0_r.
    split; [reflexivity|]. split; [assumption|]. split; [auto|].
    symmetry. apply Z.mod_small. now apply parse_hex_digits_bound.
  - destruct s as [|c s]; [cbn in Hk; lia|].
    cbn [all_hex] in Hs. apply andb_true_iff in Hs as [Hc Hs].
    cbn [String.length] in Hk.
    destruct (IH s Hs) as (Hlen & Hhex & Hlower & Hparse); [lia|].
    cbn [string_drop String.length Nat.sub all_lower_hex parse_hex_digits].
    rewrite Hc. split; [assumption|]. split; [assumption|]. split.
    + intros [_ Hl]%andb_true_iff. now apply Hlower.
    + rewrite Hparse, (parse_hex_digits_acc s (16 * 0 + hex_value c)) by assumption.
      replace (Z.of_nat (String.length s))
        with (Z.of_nat k + Z.of_nat (String.length s - k)) by lia.
      rewrite Z.pow_add_r, Z.mul_assoc by lia.
      rewrite Z.add_comm, Z_mod_plus_full. reflexivity.
Qed.

Lemma parseInt16_digits (s : string) :
  all_hex s = true -> s <> EmptyString ->
  parseInt16 s = Num (parse_hex_digits s 0).
Proof.
  destruct s as [|c s]; [congruence|].
  cbn [all_hex]. intros [Hc _]%andb_true_iff _.
  unfold parseInt16. now rewrite Hc.
Qed.

(** The digits [numToHex] starts from: an even number of them, at most
    eight. *)
Lemma numToHex_unpadded (v : number) :
  let s := numToHex v 0 in
  all_lower_hex s = true /\
  Nat.even (String.length s) = true /\
  (2 <= String.length s <= 8)%nat /\
  parse_hex_digits s 0 = Int32.ToUint32 v.
Proof.
  assert (Hu : 0 <= Int32.ToUint32 v < 2 ^ 32).
  { destruct v; cbn [Int32.ToUint32]; [apply Z.mod_pos_bound|]; lia. }
  destruct (toString16_spec _ Hu) as (Hlower & Hlen & Hparse).
  unfold numToHex.
  destruct (Nat.even (String.length (toString16 (Int32.ToUint32 v)))) eqn:Heven.
  - repeat split; try assumption; try lia.
    destruct (String.length (toString16 (Int32.ToUint32 v))) as [|[|n]];
      ((cbn in Heven; discriminate) || lia).
  - change (String "0" (toString16 (Int32.ToUint32 v)))
      with ("0" +:+ toString16 (Int32.ToUint32 v)).
    rewrite all_lower_hex_append, append_length, parse_hex_digits_append
      by reflexivity.
    change (parse_hex_digits "0" 0) with 0. change (all_lower_hex "0") with true.
    change (String.length "0") with 1%nat. cbn [Nat.add andb].
    rewrite Hlower, Hparse, Nat.even_succ, <- Nat.negb_even, Heven.
    repeat split; try lia.
    destruct (String.length (toString16 (Int32.ToUint32 v))) as
      [|[|[|[|[|[|[|[|[|n]]]]]]]]]; ((cbn in Heven; discriminate) || lia).
Qed.

Lemma numToHex_padded (v : number) (n : nat) :
  (1 <= n <= 15)%nat ->
  String.length (numToHex v n) = n /\
  all_lower_hex (numToHex v n) = true /\
  parse_hex_digits (numToHex v n) 0 = Int32.ToUint32 v mod 16 ^ Z.of_nat n.
Proof.
  intros Hn. destruct (numToHex_unpadded v) as (Hlower & _ & Hlen & Hparse).
  assert (Hfull : numToHex v n =
                  slice_last n ("0000000000000" +:+ numToHex v 0)).
  { destruct n; [lia|reflexivity]. }
  set (s := numToHex v 0) in *. rewrite Hfull. unfold slice_last.
  assert (Hall : all_lower_hex ("0000000000000" +:+ s) = true).
  { now rewrite all_lower_hex_append, Hlower. }
  assert (Hlength : String.length ("0000000000000" +:+ s)
                    = (13 + String.length s)%nat).
  { now rewrite append_length. }
  destruct (string_drop_spec (String.length ("0000000000000" +:+ s) - n)
              ("0000000000000" +:+ s)) as (Hl & _ & Hlow & Hp).
  { now apply all_lower_hex_all_hex. }
  { lia. }
  rewrite Hl, Hp. split; [lia|]. split; [now apply Hlow|].
  rewrite parse_hex_digits_append by reflexivity.
  change (parse_hex_digits "0000000000000" 0) with 0. rewrite Hparse.
  f_equal. f_equal. lia.
Qed.

Lemma numToHex_8 (v : number) :
  String.length (numToHex v 8) = 8%nat /\
  parseInt16 (numToHex v 8) = Num (Int32.ToUint32 v).
Proof.
  destruct (numToHex_padded v 8) as (Hlen & Hlower & Hparse); [lia|].
  split; [exact Hlen|].
  rewrite parseInt16_digits, Hparse.
  - f_equal. apply Z.mod_small.
    destruct v; cbn [Int32.ToUint32]; [apply Z.mod_pos_bound|]; lia.
  - now apply all_lower_hex_all_hex.
  - intros Hempty. rewrite Hempty in Hlen. discriminate Hlen.
Qed.

(** X1. With a length [n] from 1 to 15, [numToHex] writes exactly [n]
    lower-case hexadecimal digits, and [parseInt (_, 16)] reads them back
    as the value modulo [16 ^ n] of the number as an unsigned 32-bit
    integer: digits beyond the length are dropped without an error, and
    with [n >= 8] nothing is lost. *)
Theorem numToHex_fixed_width (v : number) (n : nat) :
  (1 <= n <= 15)%nat ->
  String.length (numToHex v n) = n /\
  all_lower_hex (numToHex v n) = true /\
  parseInt16 (numToHex v n) = Num (Int32.ToUint32 v mod 16 ^ Z.of_nat n) /\
  ((8 <= n)%nat -> parseInt16 (numToHex v n) = Num (Int32.ToUint32 v)).
Proof.
  intros Hn. destruct (numToHex_padded v n Hn) as (Hlen & Hlower & Hparse).
  assert (Hread : parseInt16 (numToHex v n)
                  = Num (Int32.ToUint32 v mod 16 ^ Z.of_nat n)).
  { rewrite parseInt16_digits, Hparse; [reflexivity| |].
    - now apply all_lower_hex_all_hex.
    - intros Hempty. rewrite Hempty in Hlen. cbn in Hlen. lia. }
  repeat split; try assumption.
  intros Hwide. rewrite Hread. f_equal. apply Z.mod_small.
  assert (Hu : 0 <= Int32.ToUint32 v < 2 ^ 32).
  { destruct v; cbn [Int32.ToUint32]; [apply Z.mod_pos_bound|]; lia. }
  assert (16 ^ 8 <= 16 ^ Z.of_nat n) by (apply Z.pow_le_mono_r; lia).
  lia.
Qed.

(** ** [swap16] *)

Lemma swap16_bits (v n : Z) :
  0 <= n ->
  Z.testbit (swap16 v) n =
    if n <? 8 then Z.testbit v (n + 8)
    else if n <? 16 then Z.testbit v (n - 8) else false.
Proof.
  intros Hn. unfold swap16, Int32.or, Int32.shl, Int32.and, Int32.shru.
  change (8 mod 32) with 8.
  change (Int32.ToInt32 0xFF) with 0xFF.
  repeat rewrite ?Z.lor_spec, ?Z.land_spec, ?ToInt32_bits, ?shiftl_bits,
    ?shiftr_bits, ?ToUint32_bits, ?bits_0xFF.
  assert (Hcases : n < 8 \/ 8 <= n < 16 \/ 16 <= n < 31 \/ 31 <= n) by lia.
  destruct Hcases as [Hc|[Hc|[Hc|Hc]]];
    decide_order; rewrite ?andb_false_r, ?orb_false_r, ?andb_true_r;
    cbn [andb orb]; try reflexivity; f_equal; lia.
Qed.

Lemma mod_pow2_bits (v k n : Z) :
  0 <= k -> 0 <= n ->
  Z.testbit (v mod 2 ^ k) n = (n <? k) && Z.testbit v n.
Proof.
  intros Hk Hn. destruct (Z.ltb_spec n k); cbn [andb].
  - now apply Z.mod_pow2_bits_low.
  - now apply Z.mod_pow2_bits_high.
Qed.

Lemma swap16_low (v : Z) : swap16 v = swap16 v mod 2 ^ 16.
Proof.
  apply Z.bits_inj'. intros n Hn.
  rewrite mod_pow2_bits, swap16_bits by lia.
  destruct (Z.ltb_spec n 8), (Z.ltb_spec n 16); cbn [andb];
    (reflexivity || lia).
Qed.

(** X2. [swap16] keeps the low 16 bits only: its result is an unsigned
    16-bit integer whatever the argument, and applying it twice gives the
    argument modulo [2 ^ 16], so it is an involution on 16-bit values. *)
Theorem swap16_involution (v : Z) :
  0 <= swap16 v < 2 ^ 16 /\
  swap16 (swap16 v) = v mod 2 ^ 16 /\
  (0 <= v < 2 ^ 16 -> swap16 (swap16 v) = v).
Proof.
  assert (Htwice : swap16 (swap16 v) = v mod 2 ^ 16).
  { apply Z.bits_inj'. intros n Hn.
    rewrite mod_pow2_bits, swap16_bits by lia.
    destruct (Z.ltb_spec n 8), (Z.ltb_spec n 16); cbn [andb]; try lia;
      try reflexivity; rewrite swap16_bits by lia;
      decide_order; f_equal; lia. }
  split; [|split].
  - rewrite swap16_low. apply Z.mod_pos_bound. lia.
  - exact Htwice.
  - intros Hv. rewrite Htwice. now apply Z.mod_small.
Qed.

(** ** The entry a request asks for *)

Lemma ToUint32_idem (v : number) :
  Int32.ToUint32 (Num (Int32.ToUint32 v)) = Int32.ToUint32 v.
Proof.
  destruct v as [z|]; cbn [Int32.ToUint32]; [|reflexivity].
  apply Z.mod_mod. lia.
Qed.

Lemma swap32_of_ToUint32 (v : number) :
  swap32 (Num (Int32.ToUint32 v)) = swap32 v.
Proof.
  unfold swap32, Int32.or, Int32.shl, Int32.and, Int32.shru, Int32.ToInt32.
  now rewrite !ToUint32_idem.
Qed.

Lemma substring_append (pre mid post : string) :
  String.substring (String.length pre) (String.length mid)
    (pre +:+ mid +:+ post) = mid.
Proof.
  induction pre as [|c pre IH]; rewrite ?append_nil, ?append_cons.
  - cbn [String.length]. induction mid as [|c mid IH];
      rewrite ?append_nil, ?append_cons; cbn [String.length String.substring].
    + now destruct post.
    + now rewrite IH.
  - cbn [String.length String.substring]. exact IH.
Qed.

(** X3. The entry number that the records of a transfer carry, written
    as [numToHex (swap32 (n), 8)], is what [_onSetHistoryRequest] decodes
    from a request holding these eight digits after its first four: the
    signed 32-bit value of [n], hence [n] itself for a signed 32-bit [n]. *)
Theorem requested_entry_of_numToHex (pre post : string) (n : Z) :
  String.length pre = 4%nat ->
  requested_entry (pre +:+ numToHex (swap32 n) 8 +:+ post) = Int32.ToInt32 n /\
  (- 2 ^ 31 <= n < 2 ^ 31 ->
   requested_entry (pre +:+ numToHex (swap32 n) 8 +:+ post) = n).
Proof.
  intros Hpre.
  assert (Hentry : requested_entry (pre +:+ numToHex (swap32 n) 8 +:+ post)
                   = Int32.ToInt32 n).
  { unfold requested_entry, substring_from_to.
    destruct (numToHex_8 (swap32 n)) as (Hlen & Hread).
    pose proof (substring_append pre (numToHex (swap32 n) 8) post) as Hsub.
    rewrite Hpre, Hlen in Hsub. change (12 - 4)%nat with 8%nat.
    rewrite Hsub, Hread, swap32_of_ToUint32.
    apply swap32_twice. }
  split; [exact Hentry|].
  intros Hn. rewrite Hentry. now apply ToInt32_small.
Qed.

(** ** Round trips of the codec *)

Lemma b64_value_char (d : Z) :
  0 <= d < 64 -> b64_value (b64_char d) = Some d /\ code (b64_char d) <> 61.
Proof.
  intros Hd. unfold b64_char.
  destruct (Z.ltb_spec d 26); [|destruct (Z.ltb_spec d 52);
    [|destruct (Z.ltb_spec d 62); [|destruct (Z.eqb_spec d 62)]]].
  - unfold b64_value, between. rewrite !code_chr by lia.
    split_orders; try lia. split; [f_equal|]; lia.
  - unfold b64_value, between. rewrite !code_chr by lia.
    split_orders; try lia. split; [f_equal|]; lia.
  - unfold b64_value, between. rewrite !code_chr by lia.
    split_orders; try lia. split; [f_equal|]; lia.
  - subst d. split; [reflexivity|discriminate].
  - assert (d = 63) as -> by lia. split; [reflexivity|discriminate].
Qed.

Lemma sextets_cons (d : Z) (s : string) :
  0 <= d < 64 -> sextets (String (b64_char d) s) = d :: sextets s.
Proof.
  intros Hd. destruct (b64_value_char d Hd) as [Hvalue Hcode].
  cbn [sextets]. apply Z.eqb_neq in Hcode. now rewrite Hcode, Hvalue.
Qed.

(** Three bytes at a time. *)
Lemma list_triple_ind {A} (Q : list A -> Prop) :
  Q [] -> (forall a, Q [a]) -> (forall a b, Q [a; b]) ->
  (forall a b c l, Q l -> Q (a :: b :: c :: l)) ->
  forall l, Q l.
Proof.
  intros H0 H1 H2 H3.
  assert (Hall : forall l, Q l /\ (forall a, Q (a :: l))
                           /\ (forall a b, Q (a :: b :: l))).
  { induction l as [|x l (IH0 & IH1 & IH2)]; repeat split; auto. }
  intros l. apply Hall.
Qed.

Ltac byte_arith :=
  unfold is_byte in *; Z.div_mod_to_equations; lia.

Lemma base64_round_trip (bs : list Z) :
  Forall is_byte bs -> bytes_of_base64 (base64_of_bytes bs) = bs.
Proof.
  unfold bytes_of_base64.
  induction bs as [| a | a b | a b c bs IH] using list_triple_ind; intros Hbs.
  - reflexivity.
  - apply Forall_cons_1 in Hbs as [Ha _].
    cbn [base64_of_bytes]. rewrite !sextets_cons by byte_arith.
    cbn [sextets bytes_of_sextets]. f_equal. byte_arith.
  - apply Forall_cons_1 in Hbs as [Ha Hbs]. apply Forall_cons_1 in Hbs as [Hb _].
    cbn [base64_of_bytes]. rewrite !sextets_cons by byte_arith.
    cbn [sextets bytes_of_sextets]. repeat f_equal; byte_arith.
  - apply Forall_cons_1 in Hbs as [Ha Hbs]. apply Forall_cons_1 in Hbs as [Hb Hbs].
    apply Forall_cons_1 in Hbs as [Hc Hbs].
    cbn [base64_of_bytes]. rewrite !sextets_cons by byte_arith.
    cbn [bytes_of_sextets]. rewrite (IH Hbs). repeat f_equal; byte_arith.
Qed.

Lemma bytes_of_hex_bytes (s : string) : Forall is_byte (bytes_of_hex s).
Proof.
  induction s as [| a | a b s IH] using string_pair_ind;
    [constructor | constructor |].
  cbn [bytes_of_hex]. destruct (is_hex a) eqn:Ha; [|constructor].
  destruct (is_hex b) eqn:Hb; [|constructor]. cbn [andb].
  constructor; [|exact IH].
  pose proof (hex_value_range a Ha). pose proof (hex_value_range b Hb).
  unfold is_byte. lia.
Qed.

Lemma hex_round_trip_bytes (bs : list Z) :
  Forall is_byte bs -> bytes_of_hex (hex_of_bytes bs) = bs.
Proof.
  induction bs as [|b bs IH]; intros Hbs; [reflexivity|].
  apply Forall_cons_1 in Hbs as [Hb Hbs].
  assert (Hhi : 0 <= b / 16 < 16) by byte_arith.
  assert (Hlo : 0 <= b mod 16 < 16) by byte_arith.
  cbn [hex_of_bytes bytes_of_hex].
  rewrite !lower_hex_is_hex, !hex_value_digit, (IH Hbs)
    by (try apply hex_digit_lower; assumption).
  cbn [andb]. f_equal. byte_arith.
Qed.

Lemma hex_round_trip_digits (s : string) :
  all_lower_hex s = true -> Nat.even (String.length s) = true ->
  hex_of_bytes (bytes_of_hex s) = s.
Proof.
  induction s as [| a | a b s IH] using string_pair_ind; intros Hs Heven;
    [reflexivity | discriminate Heven |].
  cbn [all_lower_hex] in Hs.
  apply andb_true_iff in Hs as [Ha Hs]. apply andb_true_iff in Hs as [Hb Hs].
  pose proof (hex_value_range a (lower_hex_is_hex a Ha)).
  pose proof (hex_value_range b (lower_hex_is_hex b Hb)).
  cbn [bytes_of_hex]. rewrite !lower_hex_is_hex by assumption.
  cbn [andb hex_of_bytes].
  replace ((16 * hex_value a + hex_value b) / 16) with (hex_value a)
    by byte_arith.
  replace ((16 * hex_value a + hex_value b) mod 16) with (hex_value b)
    by byte_arith.
  rewrite !hex_digit_value, IH by assumption. reflexivity.
Qed.

Lemma string_filter_id (s : string) :
  all_hex s = true -> string_filter is_hex s = s.
Proof.
  induction s as [|c s IH]; [reflexivity|]. cbn [all_hex string_filter].
  intros [Hc Hs]%andb_true_iff. now rewrite Hc, IH.
Qed.

(** X4. Decoding the base64 text of a buffer gives the buffer back:
    [Buffer.from (buf.toString ('base64'), 'base64')] has the bytes of
    [buf], for every list of bytes, padded or not. *)
Theorem base64_decodes_what_it_encodes (bs : list Z) :
  Forall is_byte bs ->
  bytes_of_base64 (base64_of_bytes bs) = bs /\
  base64ToHex (VStr (base64_of_bytes bs)) = Normal (hex_of_bytes bs).
Proof.
  intros Hbs. unfold base64ToHex, base64ToHex_string.
  now rewrite base64_round_trip.
Qed.

(** X5. [base64ToHex] undoes [hexToBase64]: for every string the round
    trip gives the lower-case hexadecimal text of the bytes that were
    encoded, which is the string itself when it consists of an even number
    of lower-case hexadecimal digits. *)
Theorem base64ToHex_of_hexToBase64 (s : string) :
  (exists b64,
     hexToBase64 (VStr s) = Normal b64 /\
     base64ToHex (VStr b64)
       = Normal (hex_of_bytes (bytes_of_hex (string_filter is_hex s)))) /\
  (all_lower_hex s = true -> Nat.even (String.length s) = true ->
   exists b64,
     hexToBase64 (VStr s) = Normal b64 /\ base64ToHex (VStr b64) = Normal s).
Proof.
  assert (Hround : base64ToHex (VStr (hexToBase64_string s))
                   = Normal (hex_of_bytes (bytes_of_hex (string_filter is_hex s)))).
  { unfold base64ToHex, base64ToHex_string, hexToBase64_string.
    now rewrite base64_round_trip by apply bytes_of_hex_bytes. }
  split.
  - exists (hexToBase64_string s). split; [reflexivity|exact Hround].
  - intros Hlower Heven. exists (hexToBase64_string s).
    split; [reflexivity|]. rewrite Hround.
    rewrite string_filter_id by now apply all_lower_hex_all_hex.
    now rewrite hex_round_trip_digits.
Qed.

Lemma hex_of_bytes_digits (bs : list Z) :
  Forall is_byte bs ->
  all_lower_hex (hex_of_bytes bs) = true /\
  String.length (hex_of_bytes bs) = (2 * List.length bs)%nat.
Proof.
  induction bs as [|b bs IH]; intros Hbs; [split; reflexivity|].
  apply Forall_cons_1 in Hbs as [Hb Hbs]. destruct (IH Hbs) as [IHl IHn].
  cbn [hex_of_bytes all_lower_hex String.length List.length].
  rewrite !hex_digit_lower, IHl, IHn by byte_arith. split; [reflexivity|lia].
Qed.

(** X6. [hexToBase64] undoes [base64ToHex] on the base64 text of any
    buffer: the hexadecimal text in between holds two lower-case digits
    per byte and encodes back to the same base64 text. *)
Theorem hexToBase64_of_base64ToHex (bs : list Z) :
  Forall is_byte bs ->
  exists hex,
    base64ToHex (VStr (base64_of_bytes bs)) = Normal hex /\
    String.length hex = (2 * List.length bs)%nat /\
    all_lower_hex hex = true /\
    hexToBase64 (VStr hex) = Normal (base64_of_bytes bs).
Proof.
  intros Hbs. exists (hex_of_bytes bs).
  destruct (hex_of_bytes_digits bs Hbs) as [Hlower Hlen].
  unfold base64ToHex, base64ToHex_string, hexToBase64, hexToBase64_string.
  rewrite base64_round_trip by assumption.
  rewrite string_filter_id by now apply all_lower_hex_all_hex.
  rewrite hex_round_trip_bytes by assumption.
  repeat split; assumption.
Qed.

(** ** [uuid] *)

Lemma uuid_of_id (s : string) :
  String.length s = 3%nat ->
  uuid (VStr s) = Normal ("00000" +:+ s +:+ "-0000-1000-8000-656261617577").
Proof. intros Hs. unfold uuid. now rewrite Hs. Qed.

Lemma uuid_normal (id : value) (u : string) :
  uuid id = Normal u ->
  exists s, id = VStr s /\ String.length s = 3%nat /\
            u = "00000" +:+ s +:+ "-0000-1000-8000-656261617577".
Proof.
  destruct id as [| | n | s]; try discriminate.
  unfold uuid. destruct (Nat.eqb_spec (String.length s) 3) as [Hs|Hs];
    cbn [negb]; [|discriminate].
  intros [= <-]. now exists s.
Qed.

(** X7. [uuid] accepts exactly the strings of three characters and
    throws a [TypeError] for anything else; the UUID of an accepted id has
    36 characters with the id at positions 5 to 7, so that different ids
    never share a UUID. *)
Theorem uuid_injective (a b : value) (u : string) :
  uuid a = Normal u -> uuid b = Normal u ->
  a = b /\ String.length u = 36%nat /\
  VStr (String.substring 5 3 u) = a /\
  (forall id, (exists e, uuid id = Throw e) <->
              ~ exists s, id = VStr s /\ String.length s = 3%nat).
Proof.
  intros (s & -> & Hs & Hu)%uuid_normal (t & -> & Ht & Hu')%uuid_normal.
  assert (Hsub : forall x, String.length x = 3%nat ->
            String.substring 5 3
              ("00000" +:+ x +:+ "-0000-1000-8000-656261617577") = x).
  { intros x Hx. pose proof (substring_append "00000" x
                               "-0000-1000-8000-656261617577") as Hsub.
    now rewrite Hx in Hsub. }
  assert (Hst : s = t).
  { rewrite <- (Hsub s Hs), <- (Hsub t Ht). congruence. }
  subst t. split; [reflexivity|]. split.
  - rewrite Hu, !append_length, Hs. reflexivity.
  - split; [now rewrite Hu, Hsub|].
    intros id. split.
    + intros [e He] (x & -> & Hx). rewrite uuid_of_id in He by assumption.
      discriminate.
    + intros Hid. destruct id as [| | n | x]; try (eexists; reflexivity).
      unfold uuid. destruct (Nat.eqb_spec (String.length x) 3) as [Hx|Hx];
        cbn [negb]; [|eexists; reflexivity].
      exfalso. apply Hid. now exists x.
Qed.

(** ** Reading a chunk of entries *)

Ltac with_transfer_simpl :=
  repeat match goal with
    | |- context [_currentEntry (with_transfer ?h ?c ?t ?s)] =>
        change (_currentEntry (with_transfer h c t s)) with c
    | |- context [_lastEntry (with_transfer ?h ?c ?t ?s)] =>
        change (_lastEntry (with_transfer h c t s)) with (_lastEntry h)
    | |- context [_firstEntry (with_transfer ?h ?c ?t ?s)] =>
        change (_firstEntry (with_transfer h c t s)) with (_firstEntry h)
    | |- context [_history (with_transfer ?h ?c ?t ?s)] =>
        change (_history (with_transfer h c t s)) with (_history h)
    | |- context [_transfer (with_transfer ?h ?c ?t ?s)] =>
        change (_transfer (with_transfer h c t s)) with t
    | |- context [_setTime (with_transfer ?h ?c ?t ?s)] =>
        change (_setTime (with_transfer h c t s)) with s
    | |- context [_refTime (with_transfer ?h ?c ?t ?s)] =>
        change (_refTime (with_transfer h c t s)) with (_refTime h)
    end.

Section Reading.

Context {P : Type} `{Sensor P}.

Implicit Types (h : History P) (now : number).

Lemma with_transfer_twice h (c c' : Z) (t t' s s' : bool) :
  with_transfer (with_transfer h c t s) c' t' s' = with_transfer h c' t' s'.
Proof. reflexivity. Qed.

(** One round of the loop of [_onGetEntries] on a cell that is there. *)
Lemma entries_loop_round (n : nat) h (dataStream : string) (cell : slot P) :
  _history h !! Z.rem (_currentEntry h) _memorySize = Some cell ->
  exists stream,
    entries_loop (S n) h dataStream =
      let h' := with_transfer h (_currentEntry h + 1) (_transfer h) false in
      if _currentEntry h + 1 >? _lastEntry h
      then (h', Normal (hexToBase64_string stream))
      else entries_loop n h' stream.
Proof.
  intros Hcell. cbn [entries_loop]. rewrite Hcell.
  set (resync := setRefTime cell || _setTime h
                 || (_currentEntry h =? _firstEntry h + 1)).
  assert (Hset : (if resync then false else _setTime h) = false).
  { destruct resync eqn:Hresync; [reflexivity|]. subst resync.
    apply orb_false_iff in Hresync as [Hresync _].
    now apply orb_false_iff in Hresync as [_ ->]. }
  rewrite Hset. with_transfer_simpl. eexists. reflexivity.
Qed.

(** The loop goes on until eleven entries are out or the cursor has
    passed the last entry, whichever comes first. *)
Lemma entries_loop_advances (n : nat) h (dataStream : string) :
  _currentEntry h <= _lastEntry h ->
  (forall i, _currentEntry h <= i <= _lastEntry h ->
             i < _currentEntry h + Z.of_nat (S n) ->
             is_Some (_history h !! Z.rem i _memorySize)) ->
  exists text,
    entries_loop (S n) h dataStream =
      (with_transfer h
         (Z.min (_currentEntry h + Z.of_nat (S n)) (_lastEntry h + 1))
         (_transfer h) false,
       Normal (hexToBase64_string text)).
Proof.
  revert h dataStream. induction n as [|n IH]; intros h dataStream Hcur Hcells;
    (destruct (Hcells (_currentEntry h)) as [cell Hcell]; [lia|lia|]).
  - destruct (entries_loop_round 0 h dataStream cell Hcell) as [stream ->].
    cbv zeta. exists stream.
    destruct (Z.gtb_spec (_currentEntry h + 1) (_lastEntry h));
      cbn [entries_loop]; do 2 f_equal; lia.
  - destruct (entries_loop_round (S n) h dataStream cell Hcell) as [stream ->].
    cbv zeta.
    destruct (Z.gtb_spec (_currentEntry h + 1) (_lastEntry h)) as [Hlast|Hmore].
    { exists stream. do 2 f_equal. lia. }
    destruct (IH (with_transfer h (_currentEntry h + 1) (_transfer h) false)
                stream) as [text Htext].
    { with_transfer_simpl. lia. }
    { intros i. with_transfer_simpl. intros Hi Hn. apply Hcells; lia. }
    exists text. rewrite Htext. with_transfer_simpl.
    rewrite with_transfer_twice. do 2 f_equal. lia.
Qed.

Lemma onGetEntries_advances h :
  _transfer h = true ->
  _currentEntry h <= _lastEntry h ->
  (forall i, _currentEntry h <= i <= _lastEntry h ->
             i < _currentEntry h + 11 ->
             is_Some (_history h !! Z.rem i _memorySize)) ->
  exists text,
    _onGetEntries h =
      (with_transfer h (Z.min (_currentEntry h + 11) (_lastEntry h + 1))
         true false,
       Normal (hexToBase64_string text)).
Proof.
  intros Htransfer Hcur Hcells. unfold _onGetEntries.
  destruct (Z.gtb_spec (_currentEntry h) (_lastEntry h)); [lia|].
  rewrite Htransfer. cbn [negb orb].
  destruct (entries_loop_advances 10 h "" Hcur) as [text Htext].
  { intros i Hi Hn. apply Hcells; lia. }
  exists text. rewrite Htext, Htransfer. reflexivity.
Qed.

(** X8. A read of the entries during a transfer hands out the entries
    from the cursor on, eleven at most, and moves the cursor past them:
    to [_currentEntry + 11] or just past [_lastEntry], whichever is less.
    The transfer stays active, [_setTime] is cleared and the delegate is
    otherwise unchanged. *)
Theorem read_moves_cursor h :
  _transfer h = true ->
  _currentEntry h <= _lastEntry h ->
  (forall i, _currentEntry h <= i <= _lastEntry h ->
             i < _currentEntry h + 11 ->
             is_Some (_history h !! Z.rem i _memorySize)) ->
  exists text h',
    _onGetEntries h = (h', Normal (hexToBase64_string text)) /\
    h' = with_transfer h (_currentEntry h' ) true false /\
    _currentEntry h' = Z.min (_currentEntry h + 11) (_lastEntry h + 1) /\
    _currentEntry h < _currentEntry h' <= _lastEntry h + 1.
Proof.
  intros Htransfer Hcur Hcells.
  destruct (onGetEntries_advances h Htransfer Hcur Hcells) as [text Htext].
  exists text. eexists. split; [exact Htext|].
  with_transfer_simpl. repeat split; lia.
Qed.

Lemma reads_S (n : nat) h :
  reads (S n) h =
    let '(h', r) := _onGetEntries h in
    let '(h'', rs) := reads n h' in (h'', r :: rs).
Proof. reflexivity. Qed.

Lemma reads_snoc (n : nat) h :
  reads (S n) h =
    let '(h', rs) := reads n h in
    let '(h'', r) := _onGetEntries h' in (h'', rs ++ [r]).
Proof.
  revert h. induction n as [|n IH]; intros h.
  - cbn [reads]. now destruct (_onGetEntries h).
  - rewrite (reads_S (S n)), (reads_S n).
    destruct (_onGetEntries h) as [h1 r]. rewrite IH.
    destruct (reads n h1) as [h2 rs]. now destruct (_onGetEntries h2).
Qed.

(** A transfer of [k] chunks. *)
Lemma reads_advance (k : nat) h :
  _transfer h = true ->
  _currentEntry h <= _lastEntry h ->
  (forall i, _currentEntry h <= i <= _lastEntry h ->
             is_Some (_history h !! Z.rem i _memorySize)) ->
  11 * Z.of_nat k < _lastEntry h - _currentEntry h + 1 ->
  exists texts,
    List.length texts = S k /\
    reads (S k) h =
      (with_transfer h
         (Z.min (_currentEntry h + 11 * Z.of_nat (S k)) (_lastEntry h + 1))
         true false,
       map (fun text => Normal (hexToBase64_string text)) texts).
Proof.
  revert h. induction k as [|k IH]; intros h Htransfer Hcur Hcells Hmore;
    (destruct (onGetEntries_advances h Htransfer Hcur) as [text Htext];
     [intros i Hi _; now apply Hcells|]).
  - exists [text]. split; [reflexivity|].
    cbn [reads]. rewrite Htext. cbn [map]. do 2 f_equal.
  - destruct (IH (with_transfer h
                    (Z.min (_currentEntry h + 11) (_lastEntry h + 1))
                    true false)) as (texts & Hlen & Htexts).
    + reflexivity.
    + with_transfer_simpl. lia.
    + intros i. with_transfer_simpl. intros Hi. apply Hcells. lia.
    + with_transfer_simpl. lia.
    + exists (text :: texts). split; [cbn [List.length]; lia|].
      rewrite (reads_S (S k)), Htext, Htexts. with_transfer_simpl.
      rewrite with_transfer_twice. cbn [map]. do 2 f_equal. lia.
Qed.

Lemma reads_to_the_end h :
  _transfer h = true ->
  _currentEntry h <= _lastEntry h ->
  (forall i, _currentEntry h <= i <= _lastEntry h ->
             is_Some (_history h !! Z.rem i _memorySize)) ->
  let chunks := Z.to_nat ((_lastEntry h - _currentEntry h + 11) / 11) in
  exists texts,
    List.length texts = chunks /\
    reads (S chunks) h =
      (with_transfer h (_lastEntry h + 1) false false,
       map (fun text => Normal (hexToBase64_string text)) texts
         ++ [Normal "AA=="%string]).
Proof.
  intros Htransfer Hcur Hcells chunks.
  assert (Hchunks : 11 * Z.of_nat chunks <= _lastEntry h - _currentEntry h + 11
                    < 11 * Z.of_nat chunks + 11).
  { subst chunks. rewrite Z2Nat.id by (apply Z.div_pos; lia).
    Z.div_mod_to_equations. lia. }
  destruct chunks as [|k]; [lia|].
  destruct (reads_advance k h Htransfer Hcur Hcells) as (texts & Hlen & Htexts);
    [lia|].
  exists texts. split; [exact Hlen|].
  rewrite reads_snoc, Htexts.
  replace (Z.min (_currentEntry h + 11 * Z.of_nat (S k)) (_lastEntry h + 1))
    with (_lastEntry h + 1) by lia.
  unfold _onGetEntries. with_transfer_simpl.
  destruct (Z.gtb_spec (_lastEntry h + 1) (_lastEntry h)); [|lia].
  cbn [orb]. now rewrite with_transfer_twice.
Qed.

(** X9. A transfer ends: when the cells from the cursor to
    [_lastEntry] are there, it takes one read for every eleven entries
    (the last chunk may hold fewer) to move the cursor past [_lastEntry],
    and the read after that receives [AA==], the base64 text of the byte
    [00], and ends the transfer. *)
Theorem transfer_ends_after_all_chunks h :
  _transfer h = true ->
  _currentEntry h <= _lastEntry h ->
  (forall i, _currentEntry h <= i <= _lastEntry h ->
             is_Some (_history h !! Z.rem i _memorySize)) ->
  let chunks := Z.to_nat ((_lastEntry h - _currentEntry h + 11) / 11) in
  exists texts,
    List.length texts = chunks /\
    reads (S chunks) h =
      (with_transfer h (_lastEntry h + 1) false false,
       map (fun text => Normal (hexToBase64_string text)) texts
         ++ [Normal "AA=="%string]) /\
    11 * (Z.of_nat chunks - 1) < _lastEntry h - _currentEntry h + 1
      <= 11 * Z.of_nat chunks.
Proof.
  intros Htransfer Hcur Hcells chunks.
  destruct (reads_to_the_end h Htransfer Hcur Hcells) as (texts & Hlen & Hreads).
  exists texts. split; [exact Hlen|]. split; [exact Hreads|].
  subst chunks. rewrite Z2Nat.id by (apply Z.div_pos; lia).
  Z.div_mod_to_equations. lia.
Qed.

(** The first round of the loop when it resynchronises the time. *)
Lemma entries_loop_resync (n : nat) h (dataStream : string) (cell : slot P) :
  _history h !! Z.rem (_currentEntry h) _memorySize = Some cell ->
  setRefTime cell || _setTime h || (_currentEntry h =? _firstEntry h + 1)
    = true ->
  entries_loop (S n) h dataStream =
    let h' := with_transfer h (_currentEntry h + 1) (_transfer h) false in
    let stream :=
      dataStream +:+ refTime_record (_currentEntry h) (_refTime h) in
    if _currentEntry h + 1 >? _lastEntry h
    then (h', Normal (hexToBase64_string stream))
    else entries_loop n h' stream.
Proof. intros Hcell Hresync. cbn [entries_loop]. now rewrite Hcell, Hresync. Qed.

(** What the loop passes to the callback starts with what it was given. *)
Lemma entries_loop_prefix (n : nat) h (dataStream : string) :
  exists h' r,
    entries_loop n h dataStream = (h', r) /\
    forall text, r = Normal text ->
      exists rest, text = hexToBase64_string (dataStream +:+ rest).
Proof.
  revert h dataStream. induction n as [|n IH]; intros h dataStream.
  - do 2 eexists. split; [reflexivity|]. intros text [= <-].
    exists EmptyString. now rewrite append_nil_r.
  - cbn [entries_loop].
    destruct (_history h !! Z.rem (_currentEntry h) _memorySize) as [cell|].
    + cbv zeta.
      destruct (setRefTime cell || _setTime h
                || (_currentEntry h =? _firstEntry h + 1));
        match goal with
        | |- context [if ?c
                      then (?g, Normal (hexToBase64_string (dataStream +:+ ?r)))
                      else _] =>
            destruct c;
            [ do 2 eexists; split; [reflexivity|];
              intros text [= <-]; now exists r
            | destruct (IH g (dataStream +:+ r)) as (h' & res & -> & Hres);
              exists h', res; split; [reflexivity|];
              intros text Htext; destruct (Hres text Htext) as [rest ->];
              exists (r +:+ rest); now rewrite append_assoc ]
        end.
    + do 2 eexists. split; [reflexivity|]. discriminate.
Qed.

End Reading.

(** ** More on appending *)

Section Ring.

Context {P : Type} `{Sensor P}.

Implicit Types (h : History P) (now : number).

Lemma addEntry_initialTime h now :
  loading h = false ->
  _initialTime (_addEntry h now) =
    if number_eqb (_refTime h) 0 then Some now else _initialTime h.
Proof. intros Hl. addEntry_cases h; reflexivity. Qed.

Lemma states_after_reference h nows h' :
  loading h = false -> number_eqb (_refTime h) 0 = false ->
  h' ∈ states_after h nows ->
  loading h' = false /\ _refTime h' = _refTime h /\
  _initialTime h' = _initialTime h.
Proof.
  revert h. induction nows as [|now rest IH]; intros h Hl Href Hin;
    cbn [states_after] in Hin.
  - now apply elem_of_nil in Hin.
  - assert (Hstep : loading (_addEntry h now) = false /\
                    _refTime (_addEntry h now) = _refTime h /\
                    _initialTime (_addEntry h now) = _initialTime h).
    { now rewrite addEntry_loading, addEntry_refTime, addEntry_initialTime,
        Href by assumption. }
    destruct Hstep as (Hl' & Href' & Hinit').
    apply elem_of_cons in Hin as [->|Hin]; [now repeat split|].
    apply IH in Hin; [|assumption|now rewrite Href'].
    destruct Hin as (? & -> & ->). now repeat split.
Qed.

(** X10. The reference time is set once: from the first append that
    leaves [_refTime] other than [0] on, no append changes [_refTime] or
    [_initialTime], however many follow and whatever their times. *)
Theorem reference_time_set_once h nows h' :
  loading h = false -> _refTime h <> Num 0 ->
  h' ∈ states_after h nows ->
  _refTime h' = _refTime h /\ _initialTime h' = _initialTime h.
Proof.
  intros Hl Href Hin.
  assert (Hset : number_eqb (_refTime h) 0 = false).
  { destruct (_refTime h) as [z|]; [|reflexivity].
    cbn [number_eqb]. apply Z.eqb_neq. congruence. }
  now destruct (states_after_reference h nows h' Hl Hset Hin) as (_ & ? & ?).
Qed.

Lemma rem_memorySize_plus (x : Z) :
  0 <= x -> Z.rem (x + _memorySize) _memorySize = Z.rem x _memorySize.
Proof.
  intros Hx. unfold _memorySize. rewrite !Z.rem_mod_nonneg by lia.
  replace (x + 4032) with (x + 1 * 4032) by lia. apply Z_mod_plus_full.
Qed.

(** X11. An append to a full buffer whose restart marker is in evicts
    the oldest entry: the new entry goes to the cell that held entry
    [_firstEntry + 1], no other cell changes, [_firstEntry] and
    [_lastEntry] move on by one and [_usedMemory] stays at the capacity. *)
Theorem full_append_evicts_oldest h now :
  loading h = false -> _restarted h = false ->
  _refTime h <> Num 0 -> _usedMemory h = _memorySize ->
  0 <= _firstEntry h ->
  let h' := _addEntry h now in
  _firstEntry h' = _firstEntry h + 1 /\
  _lastEntry h' = _firstEntry h + 1 + _memorySize /\
  _usedMemory h' = _memorySize /\
  Z.rem (_lastEntry h') _memorySize = Z.rem (_firstEntry h + 1) _memorySize /\
  _history h' =
    <[ Z.rem (_firstEntry h + 1) _memorySize
         := Stored (Entry now (fields (_entry h))) ]> (_history h).
Proof.
  intros Hl Hrestarted Href Hfull Hfirst h'. subst h'.
  assert (Hset : number_eqb (_refTime h) 0 = false).
  { destruct (_refTime h) as [z|]; [|reflexivity].
    cbn [number_eqb]. apply Z.eqb_neq. congruence. }
  unfold _addEntry. rewrite Hl, Hrestarted, Hset, Hfull, Z.ltb_irrefl.
  fields_simpl. rewrite rem_memorySize_plus by lia. repeat split.
Qed.

End Ring.

(** ** A request for an entry below zero *)

Section Stuck.

Context {P : Type} `{Sensor P}.

Implicit Types (h : History P) (now : number).

Ltac skip_inserts :=
  rewrite ?lookup_insert_ne by
    (first [ lia
           | match goal with
             | |- Z.rem ?x ?m <> _ =>
                 pose proof (Z.rem_nonneg x m); unfold _memorySize in *; lia
             end ]).

Lemma addEntry_natural h now :
  loading h = false -> natural h -> natural (_addEntry h now).
Proof.
  intros Hl (Hfirst & Hused & Hlast & Hcells). unfold natural.
  addEntry_cases h; repeat split; try lia; intros k Hk; skip_inserts;
    now apply Hcells.
Qed.

Lemma states_after_natural (entry0 : entry P) nows h :
  h ∈ states_after (new_History entry0) nows -> natural h.
Proof.
  assert (Hgen : forall g, loading g = false -> natural g ->
                           h ∈ states_after g nows -> natural h).
  { induction nows as [|now rest IH]; intros g Hl Hg Hin;
      cbn [states_after] in Hin.
    - now apply elem_of_nil in Hin.
    - apply elem_of_cons in Hin as [->|Hin]; [now apply addEntry_natural|].
      apply (IH (_addEntry g now)); [now rewrite addEntry_loading| |assumption].
      now apply addEntry_natural. }
  apply Hgen; [reflexivity|].
  repeat split; cbn; try lia. intros k Hk. apply lookup_singleton_ne. lia.
Qed.

Lemma rem_memorySize_neg (a : Z) :
  a <= 0 ->
  - 4032 < Z.rem a _memorySize <= 0 /\
  a = 4032 * (a ÷ 4032) + Z.rem a _memorySize.
Proof.
  intros Ha. unfold _memorySize.
  pose proof (Z.rem_nonpos a 4032). pose proof (Z.rem_bound_abs a 4032).
  pose proof (Z.quot_rem' a 4032). lia.
Qed.

(** A round of the loop at a cell that holds nothing throws. *)
Lemma entries_loop_missing (n : nat) h (dataStream : string) :
  _history h !! Z.rem (_currentEntry h) _memorySize = None ->
  exists e, entries_loop (S n) h dataStream = (h, Throw e).
Proof. intros Hcell. cbn [entries_loop]. rewrite Hcell. now eexists. Qed.

(** A read at a cursor below zero throws at once or after one round, and
    the cursor stays below zero. *)
Lemma read_below_zero h :
  natural h -> _transfer h = true -> _currentEntry h < 0 ->
  exists (c : Z) (s : bool) (e : error),
    _onGetEntries h = (with_transfer h c true s, Throw e) /\ c < 0.
Proof.
  intros (Hfirst & Hused & Hlast & Hcells) Htransfer Hcur.
  unfold _onGetEntries.
  destruct (Z.gtb_spec (_currentEntry h) (_lastEntry h)); [lia|].
  rewrite Htransfer. cbn [negb orb].
  destruct (rem_memorySize_neg (_currentEntry h)) as [Hrem Hquot]; [lia|].
  destruct (_history h !! Z.rem (_currentEntry h) _memorySize) as [cell|]
    eqn:Hcell.
  - assert (Hzero : Z.rem (_currentEntry h) _memorySize = 0).
    { destruct (Z.eq_dec (Z.rem (_currentEntry h) _memorySize) 0) as [|Hne];
        [assumption|].
      rewrite Hcells in Hcell; [discriminate|]. lia. }
    destruct (entries_loop_round 10 h "" cell Hcell) as [stream ->].
    cbv zeta.
    destruct (Z.gtb_spec (_currentEntry h + 1) (_lastEntry h)); [lia|].
    destruct (rem_memorySize_neg (_currentEntry h + 1)) as [Hrem' Hquot'];
      [lia|].
    destruct (entries_loop_missing 9
                (with_transfer h (_currentEntry h + 1) (_transfer h) false)
                stream) as [e ->].
    { with_transfer_simpl. apply Hcells. lia. }
    exists (_currentEntry h + 1), false, e.
    rewrite Htransfer. split; [reflexivity|]. lia.
  - destruct (entries_loop_missing 10 h "" Hcell) as [e ->].
    exists (_currentEntry h), (_setTime h), e.
    split; [|exact Hcur]. rewrite <- Htransfer.
    destruct h; reflexivity.
Qed.

Lemma reads_below_zero (k : nat) h :
  natural h -> _transfer h = true -> _currentEntry h < 0 ->
  Forall (fun r => exists e, r = Throw e) (snd (reads k h)) /\
  _transfer (fst (reads k h)) = true /\
  _currentEntry (fst (reads k h)) < 0.
Proof.
  revert h. induction k as [|k IH]; intros h Hh Htransfer Hcur.
  - cbn [reads fst snd]. repeat split; [constructor|assumption..].
  - destruct (read_below_zero h Hh Htransfer Hcur) as (c & s & e & Hread & Hc).
    rewrite reads_S, Hread.
    destruct (IH (with_transfer h c true s)) as (Hall & Ht & Hneg);
      [assumption|reflexivity|exact Hc|].
    destruct (reads k (with_transfer h c true s)) as [h' rs].
    cbn [fst snd] in *. repeat split; try assumption.
    constructor; [now exists e|assumption].
Qed.

(** X12. A history request whose entry number decodes to a negative
    number (its lowest byte, the last of the four, is [0x80] or more)
    leaves the delegate stuck: on a store built by appends to the empty
    store, every read of the entries from then on throws a [TypeError],
    the cursor stays below zero and the transfer stays active until
    another request arrives. *)
Theorem negative_request_makes_reads_throw
    (entry0 : entry P) nows h (request : string) (k : nat) :
  h ∈ states_after (new_History entry0) nows ->
  requested_entry (base64ToHex_string request) < 0 ->
  exists h1,
    _onSetHistoryRequest h (VStr request) = Normal h1 /\
    _currentEntry h1 = requested_entry (base64ToHex_string request) /\
    Forall (fun r => exists e, r = Throw e) (snd (reads k h1)) /\
    _transfer (fst (reads k h1)) = true /\
    _currentEntry (fst (reads k h1)) < 0.
Proof.
  intros Hin Hneg. apply states_after_natural in Hin.
  unfold _onSetHistoryRequest. cbn [base64ToHex].
  destruct (Z.eqb_spec (requested_entry (base64ToHex_string request)) 0);
    [lia|]. cbn [negb].
  eexists. split; [reflexivity|]. split; [reflexivity|].
  apply reads_below_zero; [exact Hin|reflexivity|exact Hneg].
Qed.

End Stuck.

(** ** The cells in use *)

Section Cells.

Context {P : Type} `{Sensor P}.

Implicit Types (h : History P) (now : number).

Lemma rem_memorySize_range (x : Z) :
  0 <= x ->
  0 <= Z.rem x 4032 < 4032 /\
  (x < 4032 -> Z.rem x 4032 = x) /\
  (x = 4032 -> Z.rem x 4032 = 0).
Proof.
  intros Hx. split; [apply Z.rem_bound_pos; lia|].
  split; [intros Hlt; apply Z.rem_small; lia|now intros ->].
Qed.

(** Writing to a cell in use leaves the cells in use as they are. *)
Lemma insert_in_use (m : gmap Z (slot P)) (i k : Z) (x : slot P) :
  is_Some (m !! i) -> is_Some (<[ i := x ]> m !! k) <-> is_Some (m !! k).
Proof.
  intros Hi. rewrite lookup_insert_is_Some'. split; [|now right].
  intros [<-|Hk]; assumption.
Qed.

Lemma addEntry_compact h now : compact h -> compact (_addEntry h now).
Proof.
  intros (Hl & Href & Hfirst & Hused & Hlast & Hfill & Hcells).
  unfold _memorySize in Hused, Hfill, Hcells.
  unfold compact, _addEntry. rewrite Hl, Href.
  destruct (Z.ltb_spec (_usedMemory h) _memorySize) as [Hroom|Hfull];
    unfold _memorySize in *.
  - specialize (Hfill Hroom). fields_simpl.
    split; [reflexivity|]. split; [exact Href|].
    split; [lia|]. split; [lia|]. split; [lia|]. split; [lia|].
    intros k. rewrite lookup_insert_is_Some', Hcells.
    destruct (rem_memorySize_range (_usedMemory h + 1)) as (Hrange & Hsmall & Hwrap);
      [lia|].
    destruct (Z.eq_dec (_usedMemory h + 1) 4032) as [Heq|Hne].
    + rewrite (Hwrap Heq). lia.
    + rewrite Hsmall by lia. lia.
  - assert (Hall : forall k, is_Some (_history h !! k) <-> 0 <= k < 4032).
    { intros k. rewrite Hcells. lia. }
    assert (Hrem : forall x, 0 <= x -> is_Some (_history h !! Z.rem x 4032)).
    { intros x Hx. apply Hall. now apply rem_memorySize_range. }
    destruct (_restarted h); fields_simpl.
    + split; [reflexivity|]. split; [exact Href|].
      split; [lia|]. split; [lia|]. split; [lia|]. split; [lia|].
      intros k. rewrite insert_in_use.
      * rewrite insert_in_use by (apply Hrem; lia). rewrite Hall. lia.
      * rewrite insert_in_use by (apply Hrem; lia). apply Hrem. lia.
    + split; [reflexivity|]. split; [exact Href|].
      split; [lia|]. split; [lia|]. split; [lia|]. split; [lia|].
      intros k. rewrite insert_in_use by (apply Hrem; lia).
      rewrite Hall. lia.
Qed.

Lemma first_addEntry_compact (entry0 : entry P) now :
  now <> Num epoch -> compact (_addEntry (new_History entry0) now).
Proof.
  intros Hnow.
  rewrite addEntry_unset
    by (reflexivity || (cbn [new_History _usedMemory]; unfold _memorySize; lia)).
  unfold compact. fields_simpl. unfold new_History. fields_simpl.
  unfold _memorySize.
  split; [reflexivity|]. split; [now apply sub_epoch_nonzero|].
  split; [lia|]. split; [lia|]. split; [lia|]. split; [lia|].
  intros k. change (Z.rem (0 + 1 + 1) 4032) with 2. change (0 + 1) with 1.
  rewrite !lookup_insert_is_Some', lookup_singleton_is_Some. lia.
Qed.

Lemma states_after_compact h nows h' :
  compact h -> h' ∈ states_after h nows -> compact h'.
Proof.
  revert h. induction nows as [|now rest IH]; intros h Hh Hin;
    cbn [states_after] in Hin.
  - now apply elem_of_nil in Hin.
  - apply elem_of_cons in Hin as [->|Hin]; [now apply addEntry_compact|].
    apply (IH (_addEntry h now)); [now apply addEntry_compact|assumption].
Qed.

Lemma reachable_compact (entry0 : entry P) nows h :
  h ∈ states_after (new_History entry0) nows ->
  head nows <> Some (Num epoch) -> compact h.
Proof.
  intros Hin Hnow. destruct nows as [|now rest]; cbn [states_after] in Hin.
  { now apply elem_of_nil in Hin. }
  assert (Hfirst : compact (_addEntry (new_History entry0) now)).
  { apply first_addEntry_compact. intros ->. now apply Hnow. }
  apply elem_of_cons in Hin as [->|Hin]; [exact Hfirst|].
  exact (states_after_compact _ _ _ Hfirst Hin).
Qed.

Lemma compact_entry_cells h (i : Z) :
  compact h -> 0 <= i <= _lastEntry h ->
  is_Some (_history h !! Z.rem i _memorySize).
Proof.
  intros (_ & _ & _ & _ & _ & _ & Hcells) Hi. apply Hcells.
  unfold _memorySize.
  destruct (rem_memorySize_range i) as (Hrange & Hsmall & _); [lia|].
  split; [|lia].
  destruct (Z.lt_ge_cases i 4032) as [Hlt|Hge]; [rewrite Hsmall; lia|lia].
Qed.

(** X13. The store never grows past its capacity: after any appends to
    the empty store (the first at a time other than the device epoch) the
    cells in use are exactly those from [0] to [_lastEntry], as far as they
    are below 4032; so the counters agree, [_usedMemory] is at most 4032,
    and every entry number up to [_lastEntry] has its cell. *)
Theorem cells_in_use (entry0 : entry P) nows h :
  h ∈ states_after (new_History entry0) nows ->
  head nows <> Some (Num epoch) ->
  (forall k, is_Some (_history h !! k) <-> 0 <= k <= _lastEntry h /\ k < 4032) /\
  (forall i, 0 <= i <= _lastEntry h ->
             is_Some (_history h !! Z.rem i _memorySize)) /\
  0 <= _firstEntry h /\ 1 <= _usedMemory h <= 4032 /\
  _lastEntry h = _firstEntry h + _usedMemory h /\
  (_usedMemory h < 4032 -> _firstEntry h = 0).
Proof.
  intros Hin Hnow. pose proof (reachable_compact entry0 nows h Hin Hnow) as Hh.
  split; [apply Hh|]. split; [intros i; now apply compact_entry_cells|].
  destruct Hh as (_ & _ & Hfirst & Hused & Hlast & Hfill & _).
  split; [exact Hfirst|]. split; [exact Hused|]. split; [exact Hlast|].
  exact Hfill.
Qed.

End Cells.

(** ** The start of a chunk *)

Section Resync.

Context {P : Type} `{Sensor P}.

Implicit Types h : History P.

(** The loop, where it finds the cells it visits, appends to the stream
    it was given. *)
Lemma entries_loop_appends (n : nat) h (dataStream : string) :
  _currentEntry h <= _lastEntry h ->
  (forall i, _currentEntry h <= i <= _lastEntry h ->
             i < _currentEntry h + Z.of_nat (S n) ->
             is_Some (_history h !! Z.rem i _memorySize)) ->
  exists rest,
    entries_loop (S n) h dataStream =
      (with_transfer h
         (Z.min (_currentEntry h + Z.of_nat (S n)) (_lastEntry h + 1))
         (_transfer h) false,
       Normal (hexToBase64_string (dataStream +:+ rest))).
Proof.
  intros Hcur Hcells.
  destruct (entries_loop_advances n h dataStream Hcur Hcells) as [text Htext].
  destruct (entries_loop_prefix (S n) h dataStream) as (h' & r & Hloop & Hr).
  rewrite Htext in Hloop. injection Hloop as <- <-.
  destruct (Hr _ eq_refl) as [rest Hrest].
  exists rest. rewrite Htext, Hrest. reflexivity.
Qed.

(** X14. A chunk starts with the record that sets the reference time
    whenever the read is the first since the constructor ran ([_setTime]
    still set), starts at the oldest entry kept ([_firstEntry + 1]) or
    starts at a marker cell. *)
Theorem chunk_starts_with_reference_time h (cell : slot P) :
  _transfer h = true ->
  _currentEntry h <= _lastEntry h ->
  (forall i, _currentEntry h <= i <= _lastEntry h ->
             i < _currentEntry h + 11 ->
             is_Some (_history h !! Z.rem i _memorySize)) ->
  _history h !! Z.rem (_currentEntry h) _memorySize = Some cell ->
  _setTime h = true \/ _currentEntry h = _firstEntry h + 1
    \/ setRefTime cell = true ->
  exists rest,
    _onGetEntries h =
      (with_transfer h (Z.min (_currentEntry h + 11) (_lastEntry h + 1))
         true false,
       Normal (hexToBase64_string
                 (refTime_record (_currentEntry h) (_refTime h) +:+ rest))).
Proof.
  intros Htransfer Hcur Hcells Hcell Hwhy.
  assert (Hresync : setRefTime cell || _setTime h
                    || (_currentEntry h =? _firstEntry h + 1) = true).
  { destruct Hwhy as [Hwhy|[Hwhy|Hwhy]].
    - rewrite Hwhy, orb_true_r. reflexivity.
    - apply Z.eqb_eq in Hwhy. rewrite Hwhy, orb_true_r. reflexivity.
    - rewrite Hwhy. reflexivity. }
  unfold _onGetEntries.
  destruct (Z.gtb_spec (_currentEntry h) (_lastEntry h)); [lia|].
  rewrite Htransfer. cbn [negb orb].
  rewrite (entries_loop_resync 10 h "" cell Hcell Hresync). cbv zeta.
  rewrite append_nil, Htransfer.
  destruct (Z.gtb_spec (_currentEntry h + 1) (_lastEntry h)) as [Hend|Hmore].
  - exists EmptyString. rewrite append_nil_r.
    replace (Z.min (_currentEntry h + 11) (_lastEntry h + 1))
      with (_currentEntry h + 1) by lia.
    reflexivity.
  - destruct (entries_loop_appends 9
                (with_transfer h (_currentEntry h + 1) true false)
                (refTime_record (_currentEntry h) (_refTime h)))
      as [rest Hrest].
    + with_transfer_simpl. lia.
    + intros i. with_transfer_simpl. intros Hi Hn. apply Hcells; lia.
    + exists rest. rewrite Hrest. with_transfer_simpl.
      rewrite with_transfer_twice.
      replace (Z.min (_currentEntry h + 1 + Z.of_nat 10) (_lastEntry h + 1))
        with (Z.min (_currentEntry h + 11) (_lastEntry h + 1)) by lia.
      reflexivity.
Qed.

End Resync.

(** ** A whole transfer *)

Section Completion.

Context {P : Type} `{Sensor P}.

(** X15. A transfer on a store built by appends to the empty store (the
    first at a time other than the device epoch) always completes: after a
    request for an entry from [0] to [_lastEntry] no read throws, the reads
    hand out the entries from the cursor ([1] for a request of [0]) to
    [_lastEntry] in chunks of eleven, and the read after the last chunk
    receives [AA==] and ends the transfer. *)
Theorem transfer_completes
    (entry0 : entry P) (nows : list number) (h : History P) (request : string) :
  h ∈ states_after (new_History entry0) nows ->
  head nows <> Some (Num epoch) ->
  0 <= requested_entry (base64ToHex_string request) <= _lastEntry h ->
  exists h1 texts,
    _onSetHistoryRequest h (VStr request) = Normal h1 /\
    1 <= _currentEntry h1 <= _lastEntry h /\
    let chunks := Z.to_nat ((_lastEntry h - _currentEntry h1 + 11) / 11) in
    List.length texts = chunks /\
    reads (S chunks) h1 =
      (with_transfer h1 (_lastEntry h + 1) false false,
       map (fun text => Normal (hexToBase64_string text)) texts
         ++ [Normal "AA=="%string]).
Proof.
  intros Hin Hnow Hentry.
  pose proof (reachable_compact entry0 nows h Hin Hnow) as Hh.
  assert (Hlast : 1 <= _lastEntry h).
  { destruct Hh as (_ & _ & ? & ? & ? & _). lia. }
  unfold _onSetHistoryRequest. cbn [base64ToHex].
  set (n := requested_entry (base64ToHex_string request)) in *.
  match goal with
  | |- exists h1 texts, Normal ?g = Normal h1 /\ _ => set (h1 := g)
  end.
  assert (Hcur : 1 <= _currentEntry h1 <= _lastEntry h).
  { subst h1. fields_simpl. destruct (Z.eqb_spec n 0); cbn [negb]; lia. }
  destruct (reads_to_the_end h1) as (texts & Hlen & Hreads).
  - reflexivity.
  - exact (proj2 Hcur).
  - intros i Hi. apply (compact_entry_cells h); [exact Hh|].
    change (_lastEntry h1) with (_lastEntry h) in Hi. lia.
  - exists h1, texts. split; [reflexivity|]. split; [exact Hcur|].
    split; [exact Hlen|exact Hreads].
Qed.

End Completion.

(** ** The records of a chunk *)

Lemma string_filter_append (p : ascii -> bool) (s t : string) :
  string_filter p (s +:+ t) = string_filter p s +:+ string_filter p t.
Proof.
  induction s as [|c s IH]; rewrite ?append_nil, ?append_cons;
    cbn [string_filter]; [reflexivity|].
  destruct (p c); rewrite ?append_cons, IH; reflexivity.
Qed.

Lemma numToHex_digits (v : number) (n : nat) :
  (1 <= n <= 15)%nat ->
  string_filter is_hex (numToHex v n) = numToHex v n /\
  all_hex (numToHex v n) = true /\
  String.length (numToHex v n) = n.
Proof.
  intros Hn. destruct (numToHex_padded v n Hn) as (Hlen & Hlower & _).
  apply all_lower_hex_all_hex in Hlower.
  split; [apply string_filter_id; exact Hlower|]. split; assumption.
Qed.

Lemma status_hex_digits (status : option Z) :
  string_filter is_hex (status_hex status) = status_hex status /\
  all_hex (status_hex status) = true /\
  String.length (status_hex status) = 2%nat.
Proof. destruct status; apply numToHex_digits; lia. Qed.

Lemma bytes_of_hex_pair (a b : ascii) (s : string) :
  is_hex a && is_hex b = true ->
  bytes_of_hex (String a (String b s))
    = (16 * hex_value a + hex_value b) :: bytes_of_hex s.
Proof. intros Hab. cbn [bytes_of_hex]. rewrite Hab. reflexivity. Qed.

Lemma refTime_record_layout (current refT : string) :
  string_filter is_hex current = current -> all_hex current = true ->
  String.length current = 8%nat ->
  string_filter is_hex refT = refT -> all_hex refT = true ->
  String.length refT = 8%nat ->
  exists rest,
    bytes_of_hex
      (string_filter is_hex
         (" 15" +:+ current +:+ " 0100 0000 81" +:+ refT
            +:+ "0000 0000 00 0000"))
      = 0x15 :: rest /\
    List.length rest = 20%nat.
Proof.
  intros Hc Hca Hcl Hr Hra Hrl.
  rewrite !string_filter_append, Hc, Hr.
  change (string_filter is_hex " 15") with "15"%string.
  change (string_filter is_hex " 0100 0000 81") with "0100000081"%string.
  change (string_filter is_hex "0000 0000 00 0000") with "00000000000000"%string.
  rewrite !append_cons, append_nil.
  rewrite bytes_of_hex_pair by reflexivity.
  change (16 * hex_value "1" + hex_value "5") with 0x15.
  eexists. split; [reflexivity|]. rewrite bytes_of_hex_length.
  - repeat first [rewrite append_length | progress cbn [String.length]].
    rewrite Hcl, Hrl. reflexivity.
  - repeat first [rewrite all_hex_append | progress cbn [all_hex]].
    rewrite Hca, Hra. reflexivity.
Qed.

Lemma refTime_record_bytes (current : Z) (refT : number) :
  exists rest,
    bytes_of_hex (string_filter is_hex (refTime_record current refT))
      = 0x15 :: rest /\
    List.length rest = 20%nat.
Proof.
  destruct (numToHex_digits (swap32 current) 8) as (Hc & Hca & Hcl); [lia|].
  destruct (numToHex_digits (swap32 refT) 8) as (Hr & Hra & Hrl); [lia|].
  exact (refTime_record_layout _ _ Hc Hca Hcl Hr Hra Hrl).
Qed.

Lemma entry_record_layout (current relative kind status : string) :
  string_filter is_hex current = current -> all_hex current = true ->
  String.length current = 8%nat ->
  string_filter is_hex relative = relative -> all_hex relative = true ->
  String.length relative = 8%nat ->
  string_filter is_hex kind = kind -> all_hex kind = true ->
  String.length kind = 2%nat ->
  string_filter is_hex status = status -> all_hex status = true ->
  String.length status = 2%nat ->
  exists rest,
    bytes_of_hex
      (string_filter is_hex
         (" 0b " +:+ current +:+ relative +:+ kind +:+ status))
      = 0x0b :: rest /\
    List.length rest = 10%nat.
Proof.
  intros Hc Hca Hcl Hr Hra Hrl Hk Hka Hkl Hs Hsa Hsl.
  rewrite !string_filter_append, Hc, Hr, Hk, Hs.
  change (string_filter is_hex " 0b ") with "0b"%string.
  rewrite !append_cons, append_nil.
  rewrite bytes_of_hex_pair by reflexivity.
  change (16 * hex_value "0" + hex_value "b") with 0x0b.
  eexists. split; [reflexivity|]. rewrite bytes_of_hex_length.
  - rewrite !append_length, Hcl, Hrl, Hkl, Hsl. reflexivity.
  - rewrite !all_hex_append, Hca, Hra, Hka, Hsa. reflexivity.
Qed.

Lemma entry_record_bytes (kind : string) (current : Z) (refT : number)
    (cell : slot Z) :
  string_filter is_hex kind = kind -> all_hex kind = true ->
  String.length kind = 2%nat ->
  exists rest,
    bytes_of_hex
      (string_filter is_hex
         (" 0b " +:+ numToHex (swap32 current) 8
            +:+ numToHex (swap32 (relative_time (slot_time cell) refT)) 8
            +:+ kind +:+ status_hex (slot_fields cell)))
      = 0x0b :: rest /\
    List.length rest = 10%nat.
Proof.
  intros Hk Hka Hkl.
  destruct (numToHex_digits (swap32 current) 8) as (Hc & Hca & Hcl); [lia|].
  destruct (numToHex_digits
              (swap32 (relative_time (slot_time cell) refT)) 8)
    as (Hr & Hra & Hrl); [lia|].
  destruct (status_hex_digits (slot_fields cell)) as (Hs & Hsa & Hsl).
  exact (entry_record_layout _ _ _ _ Hc Hca Hcl Hr Hra Hrl Hk Hka Hkl
           Hs Hsa Hsl).
Qed.

(** X16. Every record of a chunk is as long as its first byte says: the
    record that sets the reference time decodes to [0x15] and twenty bytes
    more, and the record of an entry of a contact or a motion sensor to
    [0x0b] and ten bytes more, whatever the entry number, the times and the
    cell are (a cell without a time or a status included). *)
Theorem records_have_announced_length
    (current : Z) (refT : number) (cell : slot Z) :
  (exists rest,
     bytes_of_hex (string_filter is_hex (refTime_record current refT))
       = 0x15 :: rest /\ List.length rest = 20%nat) /\
  (exists rest,
     bytes_of_hex
       (string_filter is_hex
          (_entryStream (Sensor := Contact.sensor) current refT cell))
       = 0x0b :: rest /\ List.length rest = 10%nat) /\
  (exists rest,
     bytes_of_hex
       (string_filter is_hex
          (_entryStream (Sensor := Motion.sensor) current refT cell))
       = 0x0b :: rest /\ List.length rest = 10%nat).
Proof.
  split; [apply refTime_record_bytes|].
  split; apply entry_record_bytes; reflexivity.
Qed.

(** ** The bytes of a chunk *)

Lemma bytes_of_hex_append (s t : string) :
  all_hex s = true -> Nat.even (String.length s) = true ->
  bytes_of_hex (s +:+ t) = bytes_of_hex s ++ bytes_of_hex t.
Proof.
  induction s as [| a | a b s IH] using string_pair_ind;
    intros Hs Heven; [reflexivity | discriminate |].
  cbn [all_hex] in Hs.
  apply andb_true_iff in Hs as [Ha Hs]. apply andb_true_iff in Hs as [Hb Hs].
  rewrite !append_cons. cbn [bytes_of_hex]. rewrite Ha, Hb. cbn [andb].
  rewrite (IH Hs Heven). reflexivity.
Qed.

(** Eight hexadecimal digits are the four bytes of the number they
    write, highest byte first. *)
Lemma bytes_of_8_digits (s : string) :
  String.length s = 8%nat -> all_hex s = true ->
  bytes_of_hex s =
    let v := parse_hex_digits s 0 in
    [v / 2 ^ 24; v / 2 ^ 16 mod 256; v / 2 ^ 8 mod 256; v mod 256].
Proof.
  intros Hlen Hs.
  do 8 (destruct s as [|? s]; [discriminate|]).
  destruct s; [|discriminate]. clear Hlen.
  cbn [all_hex] in Hs.
  repeat match type of Hs with
         | _ && _ = true => apply andb_true_iff in Hs as [?Hd Hs]
         end.
  cbn [parse_hex_digits bytes_of_hex].
  repeat match goal with
         | Hd : is_hex ?c = true |- _ =>
             rewrite Hd; apply hex_value_range in Hd
         end.
  cbn [andb]. cbv zeta.
  repeat match goal with
         | |- context [hex_value ?c] =>
             let d := fresh "d" in
             set (d := hex_value c) in *; clearbody d
         end.
  change (2 ^ 24) with 16777216. change (2 ^ 16) with 65536.
  change (2 ^ 8) with 256.
  repeat f_equal; Z.div_mod_to_equations; lia.
Qed.

(** The bytes of [swap32 (v)], highest first, are those of [v], lowest
    first. *)
Lemma swap32_bytes (v : number) :
  let x := Int32.ToUint32 (swap32 v) in
  [x / 2 ^ 24; x / 2 ^ 16 mod 256; x / 2 ^ 8 mod 256; x mod 256] = le32 v.
Proof.
  destruct v as [z|]; [|reflexivity].
  cbv zeta. unfold le32. change 256 with (2 ^ 8).
  apply (f_equal2 cons); [|apply (f_equal2 cons);
    [|apply (f_equal2 cons); [|apply (f_equal2 cons); [|reflexivity]]]];
    apply Z.bits_inj'; intros n Hn;
    rewrite ?mod_pow2_bits, ?Z.div_pow2_bits, ?ToUint32_bits,
      ?swap32_bits, ?ToUint32_bits by lia;
    unfold swap32_source;
    (destruct (Z.ltb_spec n 8); cbn [andb]; [|decide_order; reflexivity]);
    decide_order; f_equal; lia.
Qed.

Lemma numToHex_swap32_bytes (v : number) :
  bytes_of_hex (numToHex (swap32 v) 8) = le32 v.
Proof.
  destruct (numToHex_padded (swap32 v) 8) as (Hlen & Hlower & Hparse);
    [lia|].
  apply all_lower_hex_all_hex in Hlower.
  rewrite (bytes_of_8_digits _ Hlen Hlower). cbv zeta. rewrite Hparse.
  rewrite Z.mod_small.
  - apply swap32_bytes.
  - pose proof (ToUint32_range (swap32 v)) as Hrange.
    change (16 ^ Z.of_nat 8) with (2 ^ 32). exact Hrange.
Qed.

(** The record that sets the reference time, with any two strings of
    eight digits in the places of the entry number and the time. *)
Lemma refTime_record_layout_bytes (current refT : string) :
  string_filter is_hex current = current -> all_hex current = true ->
  String.length current = 8%nat ->
  string_filter is_hex refT = refT -> all_hex refT = true ->
  String.length refT = 8%nat ->
  string_filter is_hex
    (" 15" +:+ current +:+ " 0100 0000 81" +:+ refT +:+ "0000 0000 00 0000")
    = "15" +:+ current +:+ "0100000081" +:+ refT +:+ "00000000000000" /\
  bytes_of_hex
    ("15" +:+ current +:+ "0100000081" +:+ refT +:+ "00000000000000")
    = [0x15] ++ bytes_of_hex current ++ [0x01; 0; 0; 0; 0x81]
        ++ bytes_of_hex refT ++ [0; 0; 0; 0; 0; 0; 0].
Proof.
  intros Hc Hca Hcl Hr Hra Hrl. split.
  - rewrite !string_filter_append, Hc, Hr. reflexivity.
  - rewrite (bytes_of_hex_append "15") by reflexivity.
    rewrite (bytes_of_hex_append current)
      by (assumption || (rewrite Hcl; reflexivity)).
    rewrite (bytes_of_hex_append "0100000081") by reflexivity.
    rewrite (bytes_of_hex_append refT)
      by (assumption || (rewrite Hrl; reflexivity)).
    reflexivity.
Qed.

Lemma refTime_record_hex (current : Z) (refT : number) :
  exists digits,
    string_filter is_hex (refTime_record current refT) = digits /\
    all_hex digits = true /\
    Nat.even (String.length digits) = true /\
    bytes_of_hex digits = reference_time_bytes current refT.
Proof.
  destruct (numToHex_digits (swap32 current) 8) as (Hc & Hca & Hcl); [lia|].
  destruct (numToHex_digits (swap32 refT) 8) as (Hr & Hra & Hrl); [lia|].
  destruct (refTime_record_layout_bytes _ _ Hc Hca Hcl Hr Hra Hrl)
    as [Hfilter Hbytes].
  eexists. split; [exact Hfilter|]. split; [|split].
  - rewrite !all_hex_append, Hca, Hra. reflexivity.
  - rewrite !append_length, Hcl, Hrl. reflexivity.
  - rewrite Hbytes, !numToHex_swap32_bytes. reflexivity.
Qed.

(** The bytes of a chunk that starts with the record that sets the
    reference time. *)
Lemma chunk_bytes (current : Z) (refT : number) (text : string) :
  bytes_of_base64
    (hexToBase64_string (refTime_record current refT +:+ text))
  = reference_time_bytes current refT
      ++ bytes_of_hex (string_filter is_hex text).
Proof.
  unfold hexToBase64_string.
  rewrite base64_round_trip by apply bytes_of_hex_bytes.
  destruct (refTime_record_hex current refT)
    as (digits & Hfilter & Hall & Heven & Hbytes).
  rewrite string_filter_append, Hfilter, bytes_of_hex_append, Hbytes
    by assumption.
  reflexivity.
Qed.

Section ThreeEntries.

Context {P : Type} `{Sensor P}.

(** An append to a filling store whose reference time is still [0]: it
    writes a marker, then the entry, and sets the reference time. *)
Lemma unset_append cells (n : Z) (t1 : number) (e : entry P) (f : P)
    (t : number) :
  number_eqb (t1 -' epoch) 0 = true -> 0 <= n -> n + 2 < _memorySize ->
  _addEntry (with_fields (filling cells n t1 e) f) t =
    filling (<[ n + 2 := Stored (Entry t f) ]>
               (<[ n + 1 := RefTimeMarker t ]> cells))
      (n + 2) t (Entry t f).
Proof.
  intros Ht1 Hn Hroom.
  rewrite addEntry_unset
    by (cbn; (reflexivity || assumption || (unfold _memorySize in *; lia))).
  unfold with_fields, filling. fields_simpl. cbn [fields time].
  replace (n + 1 + 1) with (n + 2) by lia.
  rewrite Z.rem_small by (unfold _memorySize in *; lia). reflexivity.
Qed.

(** The store after three appends of which the first is at the device
    epoch and the second is not. *)
Lemma three_appends_late (entry0 : entry P) (f1 f2 f3 : P) (t2 t3 : number) :
  t2 <> Num epoch ->
  _addEntry
    (with_fields
       (_addEntry
          (with_fields
             (_addEntry (with_fields (new_History entry0) f1) epoch) f2)
          t2) f3) t3
  = filling
      (<[ 5 := Stored (Entry t3 f3) ]>
         (<[ 4 := Stored (Entry t2 f2) ]>
            (<[ 3 := RefTimeMarker t2 ]>
               (<[ 2 := Stored (Entry epoch f1) ]>
                  (<[ 1 := RefTimeMarker epoch ]> {[ 0 := NoValue ]})))))
      5 t2 (Entry t3 f3).
Proof.
  intros Ht2. apply sub_epoch_nonzero in Ht2.
  rewrite first_append.
  rewrite unset_append by (reflexivity || (unfold _memorySize; lia)).
  rewrite next_append by (assumption || (unfold _memorySize; lia)).
  reflexivity.
Qed.

(** The store after three appends of which the first two are at the
    device epoch. *)
Lemma three_appends_latest (entry0 : entry P) (f1 f2 f3 : P) (t3 : number) :
  _addEntry
    (with_fields
       (_addEntry
          (with_fields
             (_addEntry (with_fields (new_History entry0) f1) epoch) f2)
          epoch) f3) t3
  = filling
      (<[ 6 := Stored (Entry t3 f3) ]>
         (<[ 5 := RefTimeMarker t3 ]>
            (<[ 4 := Stored (Entry epoch f2) ]>
               (<[ 3 := RefTimeMarker epoch ]>
                  (<[ 2 := Stored (Entry epoch f1) ]>
                     (<[ 1 := RefTimeMarker epoch ]> {[ 0 := NoValue ]}))))))
      6 t3 (Entry t3 f3).
Proof.
  rewrite first_append.
  rewrite !unset_append by (reflexivity || (unfold _memorySize; lia)).
  reflexivity.
Qed.

(** C4, where the code departs from it. Three appends to the empty store,
    a request for entry [0] and a read of the entries yield one chunk that
    starts with the record setting the reference time (its 21 bytes are
    [15], the entry number [1], [01 00 00 00 81], the reference time and
    seven bytes [00]); the read after that yields the base64 text of the
    single byte [00] and ends the transfer. When the first append is not
    at the device epoch the rest of the chunk is the records of the three
    entries, as claimed. When it is, the test [_refTime === 0] finds the
    reference time unset again at the second append, the store holds a
    second marker (and a third when the second append is at the device
    epoch too), and the chunk carries a record setting the reference time
    between the entries. *)
Theorem transfer_of_three_entries
    (entry0 : entry P) (f1 f2 f3 : P) (t1 t2 t3 : number) (request : string) :
  requested_entry (base64ToHex_string request) = 0 ->
  let h1 := _addEntry (with_fields (new_History entry0) f1) t1 in
  let h2 := _addEntry (with_fields h1 f2) t2 in
  let h3 := _addEntry (with_fields h2 f3) t3 in
  let refT := _refTime h3 in
  let e1 := Stored (Entry t1 f1) in
  let e2 := Stored (Entry t2 f2) in
  let e3 := Stored (Entry t3 f3) in
  exists h4 h5 h6 text,
    _onSetHistoryRequest h3 (VStr request) = Normal h4 /\
    _onGetEntries h4 =
      (h5, Normal (hexToBase64_string (refTime_record 1 refT +:+ text))) /\
    bytes_of_base64 (hexToBase64_string (refTime_record 1 refT +:+ text))
      = reference_time_bytes 1 refT
          ++ bytes_of_hex (string_filter is_hex text) /\
    _transfer h5 = true /\
    _onGetEntries h5 = (h6, Normal "AA==") /\
    bytes_of_base64 "AA==" = [0] /\
    _transfer h6 = false /\
    (t1 <> Num epoch ->
     refT = t1 -' epoch /\
     text = _entryStream 2 refT e1 +:+ _entryStream 3 refT e2
              +:+ _entryStream 4 refT e3) /\
    (t1 = Num epoch -> t2 <> Num epoch ->
     refT = t2 -' epoch /\
     text = _entryStream 2 refT e1 +:+ refTime_record 3 refT
              +:+ _entryStream 4 refT e2 +:+ _entryStream 5 refT e3) /\
    (t1 = Num epoch -> t2 = Num epoch ->
     refT = t3 -' epoch /\
     text = _entryStream 2 refT e1 +:+ refTime_record 3 refT
              +:+ _entryStream 4 refT e2 +:+ refTime_record 5 refT
              +:+ _entryStream 6 refT e3).
Proof.
  intros Hrequest h1 h2 h3 refT e1 e2 e3.
  unfold _onSetHistoryRequest. cbn [base64ToHex]. rewrite Hrequest.
  cbn [Z.eqb negb].
  destruct (at_epoch_or_not t1) as [Ht1|Ht1];
    [destruct (at_epoch_or_not t2) as [Ht2|Ht2]|].
  - subst h1 h2 h3 refT e1 e2 e3. subst t1 t2.
    rewrite three_appends_latest. unfold filling. fields_simpl.
    match goal with
    | |- context [Normal ?g = Normal _] =>
        exists g, (with_transfer g 7 true false),
          (with_transfer g 7 false false),
          (_entryStream 2 (t3 -' epoch) (Stored (Entry epoch f1))
             +:+ refTime_record 3 (t3 -' epoch)
             +:+ _entryStream 4 (t3 -' epoch) (Stored (Entry epoch f2))
             +:+ refTime_record 5 (t3 -' epoch)
             +:+ _entryStream 6 (t3 -' epoch) (Stored (Entry t3 f3)));
        assert (Hread :
          _onGetEntries g =
            (with_transfer g 7 true false,
             Normal
               (hexToBase64_string
                  (((((refTime_record 1 (t3 -' epoch)
                       +:+ _entryStream 2 (t3 -' epoch)
                             (Stored (Entry epoch f1)))
                      +:+ refTime_record 3 (t3 -' epoch))
                     +:+ _entryStream 4 (t3 -' epoch)
                           (Stored (Entry epoch f2)))
                    +:+ refTime_record 5 (t3 -' epoch))
                   +:+ _entryStream 6 (t3 -' epoch)
                         (Stored (Entry t3 f3))))))
          by reflexivity
    end.
    split; [reflexivity|].
    split; [rewrite Hread, !append_assoc; reflexivity|].
    split; [apply chunk_bytes|].
    split; [reflexivity|]. split; [reflexivity|]. split; [reflexivity|].
    split; [reflexivity|]. split; [intros Hne; now contradiction Hne|].
    split; [intros _ Hne; now contradiction Hne|].
    intros _ _. split; reflexivity.
  - subst h1 h2 h3 refT e1 e2 e3. subst t1.
    rewrite three_appends_late by assumption. unfold filling. fields_simpl.
    match goal with
    | |- context [Normal ?g = Normal _] =>
        exists g, (with_transfer g 6 true false),
          (with_transfer g 6 false false),
          (_entryStream 2 (t2 -' epoch) (Stored (Entry epoch f1))
             +:+ refTime_record 3 (t2 -' epoch)
             +:+ _entryStream 4 (t2 -' epoch) (Stored (Entry t2 f2))
             +:+ _entryStream 5 (t2 -' epoch) (Stored (Entry t3 f3)));
        assert (Hread :
          _onGetEntries g =
            (with_transfer g 6 true false,
             Normal
               (hexToBase64_string
                  ((((refTime_record 1 (t2 -' epoch)
                      +:+ _entryStream 2 (t2 -' epoch)
                            (Stored (Entry epoch f1)))
                     +:+ refTime_record 3 (t2 -' epoch))
                    +:+ _entryStream 4 (t2 -' epoch)
                          (Stored (Entry t2 f2)))
                   +:+ _entryStream 5 (t2 -' epoch)
                         (Stored (Entry t3 f3))))))
          by reflexivity
    end.
    split; [reflexivity|].
    split; [rewrite Hread, !append_assoc; reflexivity|].
    split; [apply chunk_bytes|].
    split; [reflexivity|]. split; [reflexivity|]. split; [reflexivity|].
    split; [reflexivity|]. split; [intros Hne; now contradiction Hne|].
    split; [|intros _ Heq; contradiction].
    intros _ _. split; reflexivity.
  - subst h1 h2 h3 refT e1 e2 e3.
    rewrite three_appends by assumption.
    unfold three_entries, filling. fields_simpl.
    match goal with
    | |- context [Normal ?g = Normal _] =>
        exists g, (with_transfer g 5 true false),
          (with_transfer g 5 false false),
          (_entryStream 2 (t1 -' epoch) (Stored (Entry t1 f1))
             +:+ _entryStream 3 (t1 -' epoch) (Stored (Entry t2 f2))
             +:+ _entryStream 4 (t1 -' epoch) (Stored (Entry t3 f3)));
        assert (Hread :
          _onGetEntries g =
            (with_transfer g 5 true false,
             Normal
               (hexToBase64_string
                  (((refTime_record 1 (t1 -' epoch)
                     +:+ _entryStream 2 (t1 -' epoch)
                           (Stored (Entry t1 f1)))
                    +:+ _entryStream 3 (t1 -' epoch)
                          (Stored (Entry t2 f2)))
                   +:+ _entryStream 4 (t1 -' epoch)
                         (Stored (Entry t3 f3))))))
          by reflexivity
    end.
    split; [reflexivity|].
    split; [rewrite Hread, !append_assoc; reflexivity|].
    split; [apply chunk_bytes|].
    split; [reflexivity|]. split; [reflexivity|]. split; [reflexivity|].
    split; [reflexivity|]. split; [intros _; split; reflexivity|].
    split; intros Heq; contradiction.
Qed.

End ThreeEntries.

(** ** The further properties at work *)

Module Instances.

Import Contact Examples.

Lemma numToHex_fixed_width_witness :
  String.length (numToHex 4032 4) = 4%nat /\
  all_lower_hex (numToHex 4032 4) = true /\
  parseInt16 (numToHex 4032 4)
    = Num (Int32.ToUint32 4032 mod 16 ^ Z.of_nat 4).
Proof.
  destruct (numToHex_fixed_width 4032 4) as (Hlen & Hlower & Hparse & _);
    [lia|].
  split; [exact Hlen|]. split; [exact Hlower|exact Hparse].
Defined.

Lemma swap16_involution_witness :
  swap16 4032 = 0xc00f /\ swap16 (swap16 4032) = 4032.
Proof.
  destruct (swap16_involution 4032) as (_ & _ & Htwice).
  split; [reflexivity|]. apply Htwice. lia.
Defined.

Lemma requested_entry_of_numToHex_witness :
  requested_entry ("0114" +:+ numToHex (swap32 3) 8 +:+ "0000") = 3.
Proof.
  destruct (requested_entry_of_numToHex "0114" "0000" 3) as [_ Hsigned];
    [reflexivity|].
  apply Hsigned. lia.
Defined.

Lemma base64_decodes_what_it_encodes_witness :
  bytes_of_base64 (base64_of_bytes [1; 20; 0; 0; 0; 0; 0; 0])
    = [1; 20; 0; 0; 0; 0; 0; 0] /\
  base64ToHex (VStr (base64_of_bytes [1; 20; 0; 0; 0; 0; 0; 0]))
    = Normal (hex_of_bytes [1; 20; 0; 0; 0; 0; 0; 0]).
Proof.
  apply (base64_decodes_what_it_encodes [1; 20; 0; 0; 0; 0; 0; 0]).
  repeat constructor; unfold is_byte; lia.
Defined.

Lemma base64ToHex_of_hexToBase64_witness :
  exists b64,
    hexToBase64 (VStr "0114000000000000") = Normal b64 /\
    base64ToHex (VStr b64) = Normal "0114000000000000"%string.
Proof.
  apply (proj2 (base64ToHex_of_hexToBase64 "0114000000000000"));
    reflexivity.
Defined.

Lemma hexToBase64_of_base64ToHex_witness :
  exists hex,
    base64ToHex (VStr (base64_of_bytes [1; 20; 0; 0; 0; 128; 0; 0]))
      = Normal hex /\
    String.length hex = (2 * List.length [1; 20; 0; 0; 0; 128; 0; 0])%nat /\
    all_lower_hex hex = true /\
    hexToBase64 (VStr hex)
      = Normal (base64_of_bytes [1; 20; 0; 0; 0; 128; 0; 0]).
Proof.
  apply (hexToBase64_of_base64ToHex [1; 20; 0; 0; 0; 128; 0; 0]).
  repeat constructor; unfold is_byte; lia.
Defined.

Lemma uuid_injective_witness :
  String.length "00000116-0000-1000-8000-656261617577" = 36%nat /\
  VStr (String.substring 5 3 "00000116-0000-1000-8000-656261617577")
    = VStr "116".
Proof.
  destruct (uuid_injective (VStr "116") (VStr "116")
              "00000116-0000-1000-8000-656261617577" eq_refl eq_refl)
    as (_ & Hlen & Hid & _).
  split; [exact Hlen|exact Hid].
Defined.

(** The cells of the three entries and of their marker are there. *)
Lemma requested_cells (i : Z) :
  _currentEntry requested <= i <= _lastEntry requested ->
  is_Some (_history requested !! Z.rem i _memorySize).
Proof.
  intros Hi.
  assert (Hcur : _currentEntry requested = 1) by reflexivity.
  assert (Hlast : _lastEntry requested = 4) by (lazy; reflexivity).
  rewrite Hcur, Hlast in Hi.
  assert (Hcases : i = 1 \/ i = 2 \/ i = 3 \/ i = 4) by lia.
  destruct Hcases as [->|[->|[->| ->]]]; lazy; eexists; reflexivity.
Qed.

Lemma read_moves_cursor_witness :
  exists text h',
    _onGetEntries requested
      = (h', Normal (hexToBase64_string text)) /\
    _currentEntry h' = 5.
Proof.
  destruct (read_moves_cursor requested)
    as (text & h' & Hread & _ & Hcursor & _).
  - reflexivity.
  - apply Z.leb_le. reflexivity.
  - intros i Hi _. exact (requested_cells i Hi).
  - exists text, h'. split; [exact Hread|]. rewrite Hcursor. reflexivity.
Defined.

Lemma transfer_ends_after_all_chunks_witness :
  exists texts,
    List.length texts = 1%nat /\
    snd (reads 2 requested)
      = map (fun text => Normal (hexToBase64_string text)) texts
          ++ [Normal "AA=="%string].
Proof.
  destruct (transfer_ends_after_all_chunks requested)
    as (texts & Hlen & Hreads & _).
  - reflexivity.
  - apply Z.leb_le. reflexivity.
  - exact requested_cells.
  - exists texts. split; [exact Hlen|].
    change (S (Z.to_nat
                 ((_lastEntry requested - _currentEntry requested + 11) / 11)))
      with 2%nat in Hreads.
    rewrite Hreads. reflexivity.
Defined.

Lemma reference_time_set_once_witness :
  let h := _addEntry (new_History (Entry 0 0)) 1600000000 in
  let h' := _addEntry (_addEntry h 1600000600) 1600001200 in
  _refTime h' = _refTime h /\ _initialTime h' = _initialTime h.
Proof.
  intros h h'.
  apply (reference_time_set_once h [Num 1600000600; Num 1600001200] h').
  - reflexivity.
  - discriminate.
  - apply list_elem_of_further, list_elem_of_here.
Defined.

Lemma full_append_evicts_oldest_witness :
  let h' := _addEntry wrapped 1602419200 in
  _firstEntry h' = _firstEntry wrapped + 1 /\
  _usedMemory h' = _memorySize.
Proof.
  destruct Scenarios.wrapped_bookkeeping as (Hfirst & _ & Hused & Hrestarted).
  destruct (full_append_evicts_oldest wrapped 1602419200)
    as (Hfirst' & _ & Hused' & _).
  - lazy. reflexivity.
  - exact Hrestarted.
  - lazy. discriminate.
  - exact Hused.
  - rewrite Hfirst. lia.
  - split; [exact Hfirst'|exact Hused'].
Defined.

Lemma negative_request_makes_reads_throw_witness :
  let h := _addEntry (new_History (Entry 0 0)) 1600000000 in
  exists h1,
    _onSetHistoryRequest h (VStr "ARQAAACAAAA=") = Normal h1 /\
    _currentEntry h1 = - 2 ^ 31 /\
    Forall (fun r => exists e, r = Throw e) (snd (reads 3 h1)).
Proof.
  intros h.
  destruct (negative_request_makes_reads_throw (Entry 0 0)
              [Num 1600000000] h "ARQAAACAAAA=" 3)
    as (h1 & Hrequest & Hcursor & Hthrow & _).
  - apply list_elem_of_here.
  - reflexivity.
  - exists h1. split; [exact Hrequest|]. split; [|exact Hthrow].
    rewrite Hcursor. reflexivity.
Defined.

Lemma cells_in_use_witness :
  let h := _addEntry (_addEntry (new_History (Entry 0 0)) 1600000000)
             1600000600 in
  (forall k, is_Some (_history h !! k) <-> 0 <= k <= _lastEntry h /\ k < 4032) /\
  1 <= _usedMemory h <= 4032.
Proof.
  intros h.
  destruct (cells_in_use (Entry 0 0) [Num 1600000000; Num 1600000600] h)
    as (Hcells & _ & _ & Hused & _).
  - apply list_elem_of_further, list_elem_of_here.
  - discriminate.
  - split; [exact Hcells|exact Hused].
Defined.

Lemma chunk_starts_with_reference_time_witness :
  exists rest,
    snd (_onGetEntries requested)
      = Normal (hexToBase64_string
                  (refTime_record 1 (_refTime requested) +:+ rest)).
Proof.
  destruct (chunk_starts_with_reference_time requested
              (RefTimeMarker 1600000000))
    as [rest Hrest].
  - reflexivity.
  - apply Z.leb_le. reflexivity.
  - intros i Hi _. exact (requested_cells i Hi).
  - lazy. reflexivity.
  - left. reflexivity.
  - exists rest. rewrite Hrest. reflexivity.
Defined.

Lemma transfer_completes_witness :
  let h := _addEntry (_addEntry (new_History (Entry 0 0)) 1600000000)
             1600000600 in
  exists h1 texts,
    _onSetHistoryRequest h (VStr request_from_oldest) = Normal h1 /\
    1 <= _currentEntry h1 <= _lastEntry h /\
    let chunks := Z.to_nat ((_lastEntry h - _currentEntry h1 + 11) / 11) in
    List.length texts = chunks /\
    reads (S chunks) h1 =
      (with_transfer h1 (_lastEntry h + 1) false false,
       map (fun text => Normal (hexToBase64_string text)) texts
         ++ [Normal "AA=="%string]).
Proof.
  intros h.
  apply (transfer_completes (Entry 0 0) [Num 1600000000; Num 1600000600] h
           request_from_oldest).
  - apply list_elem_of_further, list_elem_of_here.
  - discriminate.
  - vm_compute. split; discriminate.
Defined.

Lemma transfer_of_three_entries_witness :
  (exists h4 h5 h6,
     _onSetHistoryRequest three_events (VStr request_from_oldest)
       = Normal h4 /\
     _onGetEntries h4 =
       (h5,
        Normal
          "FQEAAAABAAAAgYBHDiUAAAAAAAAACwIAAAAAAAAAAQELAwAAAFgCAAABAAsEAAAAsAQAAAEB") /\
     _onGetEntries h5 = (h6, Normal "AA==") /\
     _transfer h6 = false) /\
  (exists h4 h5 h6,
     _onSetHistoryRequest three_events_at_epoch (VStr request_from_oldest)
       = Normal h4 /\
     _onGetEntries h4 =
       (h5,
        Normal
          "FQEAAAABAAAAgVgCAAAAAAAAAAAACwIAAACo/f//AQEVAwAAAAEAAACBWAIAAAAAAAAAAAALBAAAAAAAAAABAAsFAAAAWAIAAAEB") /\
     _onGetEntries h5 = (h6, Normal "AA==") /\
     _transfer h6 = false) /\
  bytes_of_base64
    "FQEAAAABAAAAgYBHDiUAAAAAAAAACwIAAAAAAAAAAQELAwAAAFgCAAABAAsEAAAAsAQAAAEB"
    = [0x15; 1; 0; 0; 0; 1; 0; 0; 0; 0x81; 0x80; 0x47; 0x0e; 0x25;
       0; 0; 0; 0; 0; 0; 0;
       0x0b; 2; 0; 0; 0; 0; 0; 0; 0; 1; 1;
       0x0b; 3; 0; 0; 0; 0x58; 2; 0; 0; 1; 0;
       0x0b; 4; 0; 0; 0; 0xb0; 4; 0; 0; 1; 1] /\
  bytes_of_base64
    "FQEAAAABAAAAgVgCAAAAAAAAAAAACwIAAACo/f//AQEVAwAAAAEAAACBWAIAAAAAAAAAAAALBAAAAAAAAAABAAsFAAAAWAIAAAEB"
    = [0x15; 1; 0; 0; 0; 1; 0; 0; 0; 0x81; 0x58; 2; 0; 0;
       0; 0; 0; 0; 0; 0; 0;
       0x0b; 2; 0; 0; 0; 0xa8; 0xfd; 0xff; 0xff; 1; 1;
       0x15; 3; 0; 0; 0; 1; 0; 0; 0; 0x81; 0x58; 2; 0; 0;
       0; 0; 0; 0; 0; 0; 0;
       0x0b; 4; 0; 0; 0; 0; 0; 0; 0; 1; 0;
       0x0b; 5; 0; 0; 0; 0x58; 2; 0; 0; 1; 1].
Proof.
  split; [|split; [|split; reflexivity]].
  - destruct (transfer_of_three_entries (Entry 0 0) 1 0 1
                1600000000 1600000600 1600001200 request_from_oldest)
      as (h4 & h5 & h6 & text & Hrequest & Hchunk & _ & _ & Hend & _
          & Hidle & Hclaimed & _); [reflexivity|].
    destruct Hclaimed as [_ Htext]; [discriminate|].
    exists h4, h5, h6. split; [exact Hrequest|].
    split; [|split; assumption].
    etransitivity; [exact Hchunk|]. rewrite Htext. lazy. reflexivity.
  - destruct (transfer_of_three_entries (Entry 0 0) 1 0 1
                epoch (epoch + 600) (epoch + 1200) request_from_oldest)
      as (h4 & h5 & h6 & text & Hrequest & Hchunk & _ & _ & Hend & _
          & Hidle & _ & Hlate & _); [reflexivity|].
    destruct Hlate as [_ Htext]; [reflexivity|discriminate|].
    exists h4, h5, h6. split; [exact Hrequest|].
    split; [|split; assumption].
    etransitivity; [exact Hchunk|]. rewrite Htext. lazy. reflexivity.
Defined.

End Instances.
